(** * pygama.lgdo.table : the LGDO [Table], a struct of equal-length columns

    A shallow embedding of [src/pygama/lgdo/table.py].  Python objects live
    in a store indexed by addresses, because the class shares its column
    objects freely ([join] and the constructor take them without copying) and
    mutates them in place ([resize]).  Every method is a computation in a
    small state-and-exception monad over that store and the logger's output. *)

From Stdlib Require Import ZArith String List Lia.
From stdpp Require Import base option list strings.

Open Scope Z_scope.

(** ** Column objects that are not tables

    [Array], [VectorOfVectors], [Struct] and [Scalar] are imported by
    table.py and defined elsewhere in the package.  [Table] only ever uses
    them through three attributes, so they are kept abstract behind this
    interface. *)

Class Column (L N : Type) := {
  (** [obj.__len__()]; [None] when the object has no [__len__] attribute. *)
  col_len : L → option Z;
  (** [obj.resize(new_size)], in place; [None] when the call raises. *)
  col_resize : L → Z → option L;
  (** [obj.nda]; [None] when the object has no such attribute. *)
  col_nda : L → option N;
  (** The constructor [Array(nda)]. *)
  Array : N → L;
}.

(** What [Table] relies on: a resize that returns leaves the requested length *)
Class ColumnResize (L N : Type) `{Column L N} : Prop :=
  resize_len : ∀ (l l' : L) (n : Z), col_resize l n = Some l' → col_len l' = Some n.

(** One block of the [expr_config] of [Table.eval]. *)
Record expr_spec := mkSpec {
  expression : string;
  parameters : option (list (string * string));
}.

(** ** Python dictionaries

    A [dict] keeps its keys in insertion order; assigning to an existing key
    replaces the value where it stands. *)

Section Dict.
Context {V : Type}.

Fixpoint dict_get (k : string) (d : list (string * V)) : option V :=
  match d with
  | [] => None
  | (k', v) :: d' => if String.eqb k k' then Some v else dict_get k d'
  end.

Fixpoint dict_set (k : string) (v : V) (d : list (string * V)) : list (string * V) :=
  match d with
  | [] => [(k, v)]
  | (k', v') :: d' =>
      if String.eqb k k' then (k', v) :: d' else (k', v') :: dict_set k v d'
  end.

Definition dict_keys (d : list (string * V)) : list string := map fst d.

(** [dict.update(other)] *)
Definition dict_update (d other : list (string * V)) : list (string * V) :=
  fold_left (fun acc kv => dict_set kv.1 kv.2 acc) other d.
End Dict.

(** ** The dataframe library

    [pandas] is external.  A [DataFrame] is kept as its ordered columns.
    What the library does with them is a parameter: the assignment
    [df[col] = values], which pandas refuses with a [ValueError] when the
    values do not fit the frame (they are not as long as its index), and the
    expression engine behind [DataFrame.eval]. *)

Definition DataFrame (N : Type) : Type := list (string * N).

Class Pandas (N : Type) := {
  (** [len(values)] for a one-dimensional array; [None] for other values. *)
  nda_len : N → option Z;
  (** [df[col] = values]: the frame after the assignment, or [None] when
      pandas raises [ValueError]. *)
  df_set : DataFrame N → string → N → option (DataFrame N);
  (** [df.eval(statement, local_dict=..., inplace=True)] for a statement
      [name = expression]: the values assigned to column [name], or [None]
      when the engine raises. *)
  df_eval : DataFrame N → string → option (list (string * string)) → option N;
}.

(** What is used of column assignment: one-dimensional values as long as
    every column of the frame are taken, as a dictionary takes them; and an
    assignment that is taken leaves the column names where a dictionary
    would. *)
Class PandasAssign (N : Type) `{Pandas N} : Prop := {
  df_set_rows : ∀ (df : DataFrame N) col x m,
    nda_len x = Some m → (∀ k y, (k, y) ∈ df → nda_len y = Some m) →
    df_set df col x = Some (dict_set col x df);
  df_set_keys : ∀ (df df' : DataFrame N) col x,
    df_set df col x = Some df' → dict_keys df' = dict_keys (dict_set col x df);
}.

(** ** Objects and the store *)

Abbreviation addr := nat.

(** A [Table] instance: the dictionary it inherits from [Struct] (column name
    to column object), and the attributes [size] and [loc].  [size] is
    [None] when the attribute holds Python's [None].  The user attributes
    [attrs] that [Struct] carries are left out: no method of [Table] reads or
    writes them. *)
Record table := mkTable {
  fields : list (string * addr);
  size : option Z;
  loc : Z;
}.

Inductive obj (L : Type) :=
| OLeaf (l : L)
| OTable (t : table).
Arguments OLeaf {L} l.
Arguments OTable {L} t.

(** Messages handed to [log.warning]. *)
Inductive warning :=
| WarnResize (field : string) (len new_size : Z)
| WarnJoinLoc (other_loc self_loc : Z).

Record state (L : Type) := mkState {
  heap : list (obj L);
  log : list warning;
}.
Arguments mkState {L} heap log.
Arguments heap {L} s.
Arguments log {L} s.

Inductive exn :=
| TypeError | ValueError | OverflowError | KeyError | ResizeError | EvalError.

(** How a call ends.  [OutOfFuel] stands for a recursion that did not finish
    within the given depth; [Stuck] for a reference that does not denote an
    object of the expected class, which no Python program can produce. *)
Inductive outcome (A : Type) :=
| Ok (a : A)
| Raise (e : exn)
| OutOfFuel
| Stuck.
Arguments Ok {A} a.
Arguments Raise {A} e.
Arguments OutOfFuel {A}.
Arguments Stuck {A}.

Definition M (L A : Type) : Type := state L → outcome A * state L.

Section Monad.
Context {L : Type}.
Local Abbreviation M := (M L).

Definition ret {A} (a : A) : M A := fun s => (Ok a, s).

Definition bind {A B} (m : M A) (f : A → M B) : M B :=
  fun s =>
    match m s with
    | (Ok a, s') => f a s'
    | (Raise e, s') => (Raise e, s')
    | (OutOfFuel, s') => (OutOfFuel, s')
    | (Stuck, s') => (Stuck, s')
    end.

Definition raise {A} (e : exn) : M A := fun s => (Raise e, s).
Definition out_of_fuel {A} : M A := fun s => (OutOfFuel, s).

Definition lift {A} (o : outcome A) : M A := fun s => (o, s).

Definition get_obj (a : addr) : M (obj L) :=
  fun s => match heap s !! a with
           | Some o => (Ok o, s)
           | None => (Stuck, s)
           end.

Definition get_table (a : addr) : M table :=
  fun s => match heap s !! a with
           | Some (OTable t) => (Ok t, s)
           | _ => (Stuck, s)
           end.

Definition put_obj (a : addr) (o : obj L) : M unit :=
  fun s => (Ok tt, mkState (<[a := o]> (heap s)) (log s)).

(** A new object gets an address no live object has. *)
Definition alloc (o : obj L) : M addr :=
  fun s => (Ok (length (heap s)), mkState (heap s ++ [o]) (log s)).

Definition log_warning (w : warning) : M unit :=
  fun s => (Ok tt, mkState (heap s) (log s ++ [w])).
End Monad.

Notation "'let*' x ':=' m 'in' k" := (bind m (fun x => k))
  (at level 10, x name, m at level 100, k at level 200, only parsing).
Notation "'run' m 'in' k" := (bind m (fun _ => k))
  (at level 10, m at level 100, k at level 200, only parsing).

(** [sys.maxsize] of a 64-bit Python. *)
Definition maxsize : Z := 2 ^ 63 - 1.

Section Table.
Context {L N : Type} `{Column L N} `{Pandas N}.
Local Abbreviation M := (M L).

(** [hasattr(obj, "__len__")]: [Table] defines [__len__] itself. *)
Definition has_len (o : obj L) : bool :=
  match o with
  | OLeaf l => if col_len l is Some _ then true else false
  | OTable _ => true
  end.

(** [Table.__len__]: returns the [size] attribute as it is. *)
Definition Table_len (t : table) : option Z := size t.

(** What [obj.__len__()] returns: an integer, or [None] when the object
    has no such method or the method returns [None]. *)
Definition len_of (o : obj L) : option Z :=
  match o with
  | OLeaf l => col_len l
  | OTable t => Table_len t
  end.

(** The builtin [len(obj)]: it calls [__len__] and rejects an answer that
    is not an integer ([TypeError]), is negative ([ValueError]) or does not
    fit an index ([OverflowError], above [sys.maxsize]). *)
Definition py_len (o : obj L) : outcome Z :=
  match len_of o with
  | Some n =>
      if n <? 0 then Raise ValueError
      else if n <=? maxsize then Ok n else Raise OverflowError
  | None => Raise TypeError
  end.

(** [hasattr(obj, "nda")] and [obj.nda]: neither [Table] nor [Struct]
    defines it. *)
Definition nda_of (o : obj L) : option N :=
  match o with
  | OLeaf l => col_nda l
  | OTable _ => None
  end.

Definition set_size (self : addr) (n : option Z) : M unit :=
  let* t := get_table self in
  put_obj self (OTable (mkTable (fields t) n (loc t))).

Definition set_loc (self : addr) (n : Z) : M unit :=
  let* t := get_table self in
  put_obj self (OTable (mkTable (fields t) (size t) n)).

Definition set_fields (self : addr) (d : list (string * addr)) : M unit :=
  let* t := get_table self in
  put_obj self (OTable (mkTable d (size t) (loc t))).

(** The body of the loop of [resize] over [self.items()]; [rec] is the
    method [Table.resize] on a nested table, called as
    [obj.resize(new_size)], so with [do_warn] left at its default. *)
Fixpoint resize_loop (rec : addr → option Z → bool → M unit)
    (items : list (string * addr)) (new_size : option Z) (do_warn : bool)
    : M (option Z) :=
  match items with
  | [] => ret new_size
  | (field, a) :: rest =>
      let* o := get_obj a in
      let* n := lift (py_len o) in
      match new_size with
      | None => resize_loop rec rest (Some n) do_warn
      | Some m =>
          if negb (n =? m) then
            run (if do_warn then log_warning (WarnResize field n m) else ret tt) in
            run (match o with
                 | OTable _ => rec a (Some m) false
                 | OLeaf l =>
                     match col_resize l m with
                     | Some l' => put_obj a (OLeaf l')
                     | None => raise ResizeError
                     end
                 end) in
            resize_loop rec rest (Some m) do_warn
          else resize_loop rec rest (Some m) do_warn
      end
  end.

(** [Table.resize].  [fuel] bounds the nesting depth of the recursion
    through sub-table columns. *)
Fixpoint resize (fuel : nat) (self : addr) (new_size : option Z) (do_warn : bool)
    : M unit :=
  match fuel with
  | O => out_of_fuel
  | S fuel' =>
      let* t := get_table self in
      let* n := resize_loop (resize fuel') (fields t) new_size do_warn in
      set_size self n
  end.

(** Modelled from the spec: [Struct.__init__], which table.py calls through
    [super().__init__(obj_dict=col_dict, attrs=attrs)] and which is not in
    the source tree.  The spec calls it dictionary field management: the
    new object's dictionary receives the entries of [col_dict]. *)
Definition Struct_init (col_dict : option (list (string * addr))) : list (string * addr) :=
  match col_dict with
  | Some d => dict_update [] d
  | None => []
  end.

(** Modelled from the spec: [Struct.add_field], called through
    [super().add_field(name, obj)] and not in the source tree; it stores
    [obj] under [name] in the dictionary. *)
Definition Struct_add_field (self : addr) (name : string) (a : addr) : M unit :=
  let* t := get_table self in
  set_fields self (dict_set name a (fields t)).

(** [Table.__init__].  The object exists before its attributes are
    assigned; [size] and [loc] hold placeholders until then, which nothing
    reads, as no column can refer to an object that is being built. *)
Definition Table_init (fuel : nat) (size : option Z)
    (col_dict : option (list (string * addr))) : M addr :=
  let* self := alloc (OTable (mkTable (Struct_init col_dict) None 0)) in
  run (match col_dict with
       | Some (_ :: _) =>
           let do_warn := if size is Some _ then false else true in
           resize fuel self size do_warn
       | _ => set_size self (Some (default 1024 size))
       end) in
  run set_loc self 0 in
  ret self.

Definition datatype_name : string := "table"%string.

Definition push_row (self : addr) : M unit :=
  let* t := get_table self in
  set_loc self (loc t + 1).

(** [self.loc >= self.size]: comparing an [int] with [None] is a
    [TypeError]. *)
Definition is_full (self : addr) : M bool :=
  let* t := get_table self in
  match size t with
  | Some n => ret (n <=? loc t)
  | None => raise TypeError
  end.

Definition clear (self : addr) : M unit := set_loc self 0.

(** [Table.add_field].  [do_warn] is accepted and, as in the source, not
    passed on to [resize]. *)
Definition add_field (fuel : nat) (self : addr) (name : string) (a : addr)
    (use_obj_size do_warn : bool) : M unit :=
  let* o := get_obj a in
  if negb (has_len o) then raise TypeError
  else
    run Struct_add_field self name a in
    let* t := get_table self in
    let* o := get_obj a in
    let* n := lift (py_len o) in
    if negb (bool_decide (size t = Some n)) then
      let new_size := if use_obj_size then Some n else size t in
      resize fuel self new_size false
    else ret tt.

Definition add_column (fuel : nat) (self : addr) (name : string) (a : addr)
    (use_obj_size do_warn : bool) : M unit :=
  add_field fuel self name a use_obj_size do_warn.

(** The loop of [join] over the names to take from [other_table]. *)
Fixpoint join_loop (fuel : nat) (self other : addr) (names : list string)
    (do_warn : bool) : M unit :=
  match names with
  | [] => ret tt
  | name :: rest =>
      let* t := get_table other in
      match dict_get name (fields t) with
      | None => raise KeyError
      | Some a =>
          run add_column fuel self name a false do_warn in
          join_loop fuel self other rest do_warn
      end
  end.

(** [Table.join].  [other_table.keys()] is read when the loop starts: no
    step of the loop adds a key to [other_table]. *)
Definition join (fuel : nat) (self other : addr) (cols : option (list string))
    (do_warn : bool) : M unit :=
  let* to := get_table other in
  let* ts := get_table self in
  run (if negb (loc to =? loc ts) && do_warn
       then log_warning (WarnJoinLoc (loc to) (loc ts)) else ret tt) in
  let names := match cols with
               | None => dict_keys (fields to)
               | Some l => l
               end in
  join_loop fuel self other names do_warn.

(** The loop of [get_dataframe] over the requested column names. *)
Fixpoint get_dataframe_loop (self : addr) (cols : list string) (df : DataFrame N)
    : M (DataFrame N) :=
  match cols with
  | [] => ret df
  | col :: rest =>
      let* t := get_table self in
      match dict_get col (fields t) with
      | None => raise KeyError
      | Some a =>
          let* o := get_obj a in
          match nda_of o with
          | None => raise ValueError
          | Some x =>
              match df_set df col x with
              | None => raise ValueError
              | Some df' => get_dataframe_loop self rest df'
              end
          end
      end
  end.

(** [Table.get_dataframe]; [copy] only chooses whether the frame shares
    memory with the columns. *)
Definition get_dataframe (self : addr) (cols : option (list string)) (copy : bool)
    : M (DataFrame N) :=
  let* t := get_table self in
  let names := match cols with
               | None => dict_keys (fields t)
               | Some l => l
               end in
  get_dataframe_loop self names [].

(** The loop of [eval] over [expr_config.items()]. *)
Fixpoint eval_loop (fuel : nat) (out_tbl : addr) (items : list (string * expr_spec))
    (df : DataFrame N) : M unit :=
  match items with
  | [] => ret tt
  | (out_var, spec) :: rest =>
      match df_eval df (out_var ++ " = " ++ expression spec)%string (parameters spec) with
      | None => raise EvalError
      | Some x =>
          let df' := dict_set out_var x df in
          let* a := alloc (OLeaf (Array x)) in
          run add_column fuel out_tbl out_var a false true in
          eval_loop fuel out_tbl rest df'
      end
  end.

(** [Table.eval] *)
Definition eval (fuel : nat) (self : addr) (expr_config : list (string * expr_spec))
    : M addr :=
  let* df := get_dataframe self None false in
  let* t := get_table self in
  let* out_tbl := Table_init fuel (size t) None in
  run eval_loop fuel out_tbl expr_config df in
  ret out_tbl.
End Table.

(** ** A concrete family of column objects

    Used to run the methods on examples: an array over integers whose resize
    truncates or pads with zeros, as [numpy.ndarray.resize] does, and a scalar,
    which has neither a length nor an [nda]. *)

Inductive lgdo :=
| scalar (v : Z)
| array (nda : list Z).

Definition lgdo_resize (l : lgdo) (n : Z) : option lgdo :=
  match l with
  | scalar _ => None
  | array xs =>
      if 0 <=? n then Some (array (take (Z.to_nat n) (xs ++ replicate (Z.to_nat n) 0)))
      else None
  end.

#[export] Instance lgdo_column : Column lgdo (list Z) := {
  col_len l := match l with scalar _ => None | array xs => Some (Z.of_nat (length xs)) end;
  col_resize := lgdo_resize;
  col_nda l := match l with scalar _ => None | array xs => Some xs end;
  Array := array;
}.

(** An example of the library, over lists: an assignment is refused when
    the values are not as long as the columns the frame has; the engine
    evaluates every statement to the frame's first column, and raises on an
    empty statement. *)
#[export] Instance const_engine : Pandas (list Z) := {
  nda_len x := Some (Z.of_nat (length x));
  df_set df col x :=
    if forallb (λ ky : string * list Z, (length ky.2 =? length x)%nat) df
    then Some (dict_set col x df) else None;
  df_eval df stmt _ :=
    if String.eqb stmt ""%string then None
    else Some (match df with [] => [] | (_, x) :: _ => x end);
}.

(** ** Example stores and programs *)

(** Two arrays of three and five rows, a scalar, and a third array of three
    rows, at addresses 0 to 3. *)
Definition arrays : state lgdo :=
  mkState [OLeaf (array [1; 2; 3]); OLeaf (array [4; 5; 6; 7; 8]);
           OLeaf (scalar 7); OLeaf (array [7; 8; 9])] [].

(** [arrays] and, at address 4, a table that says three rows, with columns
    [a], the first array, and [b], the second, which has five: a table in
    need of a [resize]. *)
Definition two_cols_table : table := mkTable [("a"%string, 0%nat); ("b"%string, 1%nat)] (Some 3) 0.
Definition two_cols : state lgdo :=
  mkState (heap arrays ++ [OTable two_cols_table]) [].

(** [arrays] and two tables of three rows: at 4 one with column [x], the
    first array; at 5 one with column [y], the third array, and [loc] 1. *)
Definition table_x : table := mkTable [("x"%string, 0%nat)] (Some 3) 0.
Definition table_y : table := mkTable [("y"%string, 3%nat)] (Some 3) 1.
Definition two_tables : state lgdo :=
  mkState (heap arrays ++ [OTable table_x; OTable table_y]) [].

(** [arrays] and two tables: at 4 one of three rows with column [x], the
    first array; at 5 one of five rows with column [y], the second array. *)
Definition table_y5 : table := mkTable [("y"%string, 1%nat)] (Some 5) 0.
Definition unequal_tables : state lgdo :=
  mkState (heap arrays ++ [OTable table_x; OTable table_y5]) [].

(** [arrays] and, at address 4, a table of three rows whose columns are the
    first array and the scalar, which has no [nda]. *)
Definition table_with_scalar : table :=
  mkTable [("a"%string, 0%nat); ("v"%string, 2%nat)] (Some 3) 0.
Definition with_scalar : state lgdo :=
  mkState (heap arrays ++ [OTable table_with_scalar]) [].



(** [arrays] and, at address 4, a table of three rows with columns [a] and
    [c], the first and the third array, of three rows each. *)
Definition equal_cols_table : table :=
  mkTable [("a"%string, 0%nat); ("c"%string, 3%nat)] (Some 3) 0.
Definition equal_cols : state lgdo :=
  mkState (heap arrays ++ [OTable equal_cols_table]) [].

(** [Table(col_dict={"a": a, "b": b, "c": b})], with [a] of three rows and
    [b] of five: two columns are one object. *)
Definition aliased_columns : M lgdo addr :=
  Table_init 1 None (Some [("a"%string, 0%nat); ("b"%string, 1%nat); ("c"%string, 1%nat)]).

(** A table of three rows that is its own column, as after
    [t = Table(size=3); t.add_field("me", t)]. *)
Definition table_in_itself : table := mkTable [("me"%string, 0%nat)] (Some 3) 0.
Definition self_column : state lgdo := mkState [OTable table_in_itself] [].

(** [t1 = Table(col_dict={"x": a}); t2 = Table(size=3); t2.join(t1);
    t2.resize(5); t1.add_field("y", c)], with [a] and [c] the arrays of
    three rows of [arrays]; the result is [t1]. *)
Definition shared_column : M lgdo addr :=
  let* t1 := Table_init 1 None (Some [("x"%string, 0%nat)]) in
  let* t2 := Table_init 1 (Some 3) None in
  run join 1 t2 t1 None true in
  run resize 1 t2 (Some 5) false in
  run add_field 1 t1 "y" 3%nat false true in
  ret t1.

(** The same, then [t1.get_dataframe()]: the result is the frame. *)
Definition dataframe_after_sharing : M lgdo (DataFrame (list Z)) :=
  let* t1 := shared_column in
  get_dataframe t1 None false.

(** [t = Table(); t.resize(); before = t.size;
    t.add_field("a", a, use_obj_size=False); after = t.size], with [a] the
    first array of [arrays]; the result is [(before, after)]. *)
Definition add_field_after_empty_resize : M lgdo (option Z * option Z) :=
  let* t := Table_init 1 None None in
  run resize 1 t None false in
  let* before := get_table t in
  run add_field 1 t "a" 0%nat false true in
  let* after := get_table t in
  ret (size before, size after).

(** [t = Table(); t.resize(); out = t.eval({})]; the result is
    [(t.size, out.size)]. *)
Definition eval_after_empty_resize : M lgdo (option Z * option Z) :=
  let* t := Table_init 1 None None in
  run resize 1 t None false in
  let* out := eval 1 t [] in
  let* t_now := get_table t in
  let* t_out := get_table out in
  ret (size t_now, size t_out).

(** * The vocabulary of the properties *)

Section Vocabulary.
Context {L N : Type} `{Column L N}.
Local Abbreviation M := (M L).
Implicit Types (s : state L) (o : obj L) (a c self : addr) (t : table) (n : Z).

(** [m] relates every state to the state it ends in, however it ends. *)
Definition preserves {A} (R : relation (state L)) (m : M A) : Prop :=
  ∀ s, R s (m s).2.

(** The object at [a] has length [n]. *)
Definition len_at s a n : Prop :=
  ∃ o, heap s !! a = Some o ∧ len_of o = Some n.

(** The object at [a] is the table [t]. *)
Definition is_table s a t : Prop := heap s !! a = Some (OTable t).

(** The part of an object that [resize] never writes: whether it is a
    table, and then its dictionary and [loc]. *)
Definition skel o : option (list (string * addr) * Z) :=
  match o with
  | OLeaf _ => None
  | OTable t => Some (fields t, loc t)
  end.

(** The same objects are tables in [s] and [s'], with the same dictionary
    and [loc]. *)
Definition same_shape s s' : Prop :=
  ∀ a, skel <$> (heap s !! a) = skel <$> (heap s' !! a).

(** [resized n s s']: [s'] comes from [s] by resizing objects to [n].  An
    object is as it was, or it has length [n]; and a table whose [size] was
    assigned had all its columns at length [n] by then. *)
Definition resized n s s' : Prop :=
  same_shape s s' ∧
  ∀ a o', heap s' !! a = Some o' →
    heap s !! a = Some o' ∨
    (len_of o' = Some n ∧
     ∀ t, o' = OTable t → ∀ k c, (k, c) ∈ fields t → len_at s' c n).

(** The state with the table at [self] replaced by [t']. *)
Definition with_table s self t' : state L :=
  mkState (<[self := OTable t']> (heap s)) (log s).

(** The table [t] with [a] stored under [name]. *)
Definition add_col t (name : string) a : table :=
  mkTable (dict_set name a (fields t)) (size t) (loc t).

(** Objects reachable from [a] through the columns of nested tables. *)
Inductive reach s : addr → addr → Prop :=
| reach_refl a : reach s a a
| reach_step a t k c b :
    is_table s a t → (k, c) ∈ fields t → reach s c b → reach s a b.

(** Nothing was logged between [s] and [s']. *)
Definition same_log s s' : Prop := log s' = log s.

(** The warning the loop of [resize] owes to one field: its length in [s]
    is not the target [n]. *)
Definition mismatch s n (kc : string * addr) : list warning :=
  match heap s !! kc.2 with
  | Some o =>
      match py_len o with
      | Ok m => if m =? n then [] else [WarnResize kc.1 m n]
      | _ => []
      end
  | None => []
  end.

(** The warnings owed to the fields [items], in their order. *)
Definition warnings_for s n (items : list (string * addr)) : list warning :=
  flat_map (mismatch s n) items.

(** No column is reachable from one the loop visits before it: resizing a
    column then never resizes, behind the loop's back, one still to come. *)
Fixpoint separated s (items : list (string * addr)) : Prop :=
  match items with
  | [] => True
  | (_, c) :: rest => (∀ k' c', (k', c') ∈ rest → ¬ reach s c c') ∧ separated s rest
  end.



(** [resizable s n d a]: what a [resize] to [n] that reaches [a] needs to
    go through.  Tables nest at most [d] deep below [a]; the builtin [len]
    answers on every object on the way; and the [resize] of an object that
    is not a table and has another length than [n] does not raise. *)
Inductive resizable s n : nat → addr → Prop :=
| resizable_leaf d a l m :
    heap s !! a = Some (OLeaf l) → py_len (OLeaf l) = Ok m →
    (m ≠ n → is_Some (col_resize l n)) → resizable s n d a
| resizable_table d a t m :
    is_table s a t → py_len (OTable t) = Ok m →
    (∀ k c, (k, c) ∈ fields t → resizable s n d c) →
    resizable s n (S d) a.

(** The invariant of the class: every column of the table at [self] is as
    long as the table's [size]. *)
Definition table_inv s self : Prop :=
  ∃ t, is_table s self t ∧
       ∀ k c, (k, c) ∈ fields t → ∃ n, size t = Some n ∧ len_at s c n.


(** No table refers to an address outside the store. *)
Definition heap_closed s : Prop :=
  ∀ a t k c, is_table s a t → (k, c) ∈ fields t → (c < length (heap s))%nat.

(** The [nda] of the column [name] of [t], when there is such a column
    and it has one. *)
Definition column_nda s t (name : string) : option N :=
  c ← dict_get name (fields t); o ← heap s !! c; nda_of o.

(** The column [name] of [t] is an object without [nda]. *)
Definition lacks_nda s t (name : string) : Prop :=
  ∃ c o, dict_get name (fields t) = Some c ∧ heap s !! c = Some o ∧ nda_of o = None.

(** The dictionary of a table after it took the columns [names] of a
    table with dictionary [from]. *)
Definition join_fields (from : list (string * addr)) (names : list string)
    (d : list (string * addr)) : list (string * addr) :=
  fold_left (λ d name, match dict_get name from with
                       | Some c => dict_set name c d
                       | None => d
                       end) names d.

(** What [join] achieves: each name in [names] denotes in [self] the very
    object it denotes in [other]; the other names of [self] denote what they
    did; [other] has the dictionary, [size] and [loc] it had, and [self] the
    [size] and [loc] it had. *)
Definition joined s' self other ts to (names : list string) : Prop :=
  ∃ ts' to',
    is_table s' self ts' ∧ is_table s' other to' ∧
    (∀ name, name ∈ names →
       is_Some (dict_get name (fields to)) ∧
       dict_get name (fields ts') = dict_get name (fields to)) ∧
    (∀ name, name ∉ names → dict_get name (fields ts') = dict_get name (fields ts)) ∧
    fields to' = fields to ∧ size to' = size to ∧ loc to' = loc to ∧
    size ts' = size ts ∧ loc ts' = loc ts.

(** The table under construction in [eval], at the first address after
    the store [h0] the call started from: it has [n] rows, columns named
    [keys] in this order, each a new object of length [n] that is not a
    table; and the objects of [h0] are as they were. *)
Definition out_inv (h0 : list (obj L)) n s (keys : list string) : Prop :=
  ∃ t, is_table s (length h0) t ∧ size t = Some n ∧ dict_keys (fields t) = keys ∧
       (∀ k c, (k, c) ∈ fields t →
          (length h0 < c)%nat ∧ ∃ l, heap s !! c = Some (OLeaf l) ∧ col_len l = Some n) ∧
       (∀ a, (a < length h0)%nat → heap s !! a = h0 !! a).

(** [k] calls of [push_row], one after the other. *)
Fixpoint push_rows self (k : nat) : M unit :=
  match k with
  | O => ret tt
  | S k' => run push_row self in push_rows self k'
  end.

Context `{!Pandas N}.

(** Every block of [expr_config] evaluates on the frame it meets, to
    values that make an [Array] of [n] rows. *)
Fixpoint evaluates n (df : DataFrame N) (cfg : list (string * expr_spec)) : Prop :=
  match cfg with
  | [] => True
  | (out_var, spec) :: rest =>
      ∃ x, df_eval df (out_var ++ " = " ++ expression spec)%string (parameters spec)
           = Some x ∧
           col_len (Array x) = Some n ∧
           evaluates n (dict_set out_var x df) rest
  end.

End Vocabulary.

(** * Reasoning about computations *)

Section MonadFacts.
Context {L : Type}.
Local Abbreviation M := (M L).

Lemma bind_Ok {A B} (m : M A) (f : A → M B) s b s' :
  bind m f s = (Ok b, s') ↔ ∃ a s1, m s = (Ok a, s1) ∧ f a s1 = (Ok b, s').
Proof.
  unfold bind. split.
  - destruct (m s) as [[a| | |] s1]; intros Hf; try discriminate; eauto.
  - intros (a & s1 & -> & Hf). done.
Qed.

Lemma bind_run {A B} (m : M A) (f : A → M B) s a s1 :
  m s = (Ok a, s1) → bind m f s = f a s1.
Proof. unfold bind. by intros ->. Qed.

Lemma bind_rel {A B} (R : relation (state L)) `{!PreOrder R}
    (m : M A) (f : A → M B) s :
  R s (m s).2 → (∀ a s1, m s = (Ok a, s1) → R s1 (f a s1).2) →
  R s (bind m f s).2.
Proof.
  intros Hm Hf. unfold bind.
  destruct (m s) as [[a| | |] s1] eqn:Hms; simpl in *; try done.
  etrans; [exact Hm|by apply Hf].
Qed.

Lemma bind_cong_l {A B} (m m' : M A) (f : A → M B) s :
  m s = m' s → bind m f s = bind m' f s.
Proof. unfold bind. by intros ->. Qed.

Lemma get_obj_state a s : (get_obj (L:=L) a s).2 = s.
Proof. unfold get_obj. by destruct (heap s !! a). Qed.

Lemma get_table_state a s : (get_table (L:=L) a s).2 = s.
Proof. unfold get_table. by destruct (heap s !! a) as [[]|]. Qed.

Lemma get_obj_Ok a s o s' :
  get_obj (L:=L) a s = (Ok o, s') ↔ heap s !! a = Some o ∧ s' = s.
Proof.
  unfold get_obj. destruct (heap s !! a); naive_solver.
Qed.

Lemma get_table_Ok a s t s' :
  get_table (L:=L) a s = (Ok t, s') ↔ heap s !! a = Some (OTable t) ∧ s' = s.
Proof.
  unfold get_table. destruct (heap s !! a) as [[]|]; naive_solver.
Qed.
End MonadFacts.

#[local] Hint Resolve get_obj_state get_table_state : core.

(** * Dictionaries *)

Section DictFacts.
Context {V : Type}.
Implicit Types (d : list (string * V)) (k : string) (v : V).

Lemma dict_get_elem k v d : dict_get k d = Some v → (k, v) ∈ d.
Proof.
  induction d as [|[k' v'] d IH]; simpl; [done|].
  destruct (String.eqb_spec k k') as [->|Hne].
  - intros [= ->]. left.
  - intros Hd. right. by apply IH.
Qed.

Lemma dict_get_keys k d : is_Some (dict_get k d) ↔ k ∈ dict_keys d.
Proof.
  unfold dict_keys. induction d as [|[k' v'] d IH]; simpl.
  - split; [by intros [? ?]|by intros ?%elem_of_nil].
  - destruct (String.eqb_spec k k') as [->|Hne].
    + split; [left|eauto].
    + rewrite IH. split; [by right|]. by intros [?|?]%elem_of_cons.
Qed.

Lemma elem_of_dict_set k v k' v' d :
  (k, v) ∈ dict_set k' v' d → (k, v) ∈ d ∨ v = v'.
Proof.
  induction d as [|[k0 v0] d IH]; simpl.
  - intros [[= -> ->]|?%elem_of_nil]%elem_of_cons; [by right|done].
  - destruct (String.eqb k' k0).
    + intros [[= -> ->]|?]%elem_of_cons; [by right|]. left. by right.
    + intros [[= -> ->]|Hin]%elem_of_cons; [left; left|].
      destruct (IH Hin); [left; by right|by right].
Qed.

Lemma dict_get_set k k' v d :
  dict_get k (dict_set k' v d) = if String.eqb k k' then Some v else dict_get k d.
Proof.
  induction d as [|[k0 v0] d IH]; simpl; [done|].
  destruct (String.eqb_spec k' k0) as [->|Hne0]; simpl.
  - by destruct (String.eqb k k0).
  - destruct (String.eqb_spec k k0) as [->|Hne]; [|done].
    destruct (String.eqb_spec k0 k'); [congruence|done].
Qed.

Lemma dict_set_get_id k v d : dict_get k d = Some v → dict_set k v d = d.
Proof.
  induction d as [|[k0 v0] d IH]; simpl; [done|].
  destruct (String.eqb k k0); [by intros [= ->]|]. intros Hd. by rewrite IH.
Qed.

Lemma dict_keys_set k v d :
  dict_keys (dict_set k v d) =
  if decide (k ∈ dict_keys d) then dict_keys d else dict_keys d ++ [k].
Proof.
  unfold dict_keys. induction d as [|[k0 v0] d IH].
  - case_decide as Hin; [by apply elem_of_nil in Hin|done].
  - cbn [dict_set map fst]. destruct (String.eqb_spec k k0) as [->|Hne].
    + simpl. rewrite decide_True; [done|left].
    + simpl. rewrite IH. destruct (decide (k ∈ map fst d)) as [Hin|Hnin].
      * rewrite decide_True; [done|by right].
      * rewrite decide_False; [done|]. by intros [?|?]%elem_of_cons.
Qed.

Lemma dict_set_nonempty k v d : dict_set k v d ≠ [].
Proof. destruct d as [|[k' v'] d]; simpl; [done|]. by destruct (String.eqb k k'). Qed.

Lemma dict_update_nonempty d other : d ≠ [] → dict_update d other ≠ [].
Proof.
  unfold dict_update. revert d. induction other as [|[k v] other IH]; intros d Hd; [done|].
  simpl. apply IH, dict_set_nonempty.
Qed.
End DictFacts.

(** * Properties of the store *)

Section StoreFacts.
Context {L N : Type} `{Column L N}.
Local Abbreviation M := (M L).
Implicit Types (s : state L) (o : obj L) (a c self : addr) (t : table) (n : Z).

#[global] Instance same_shape_preorder : PreOrder (same_shape (L:=L)).
Proof.
  split.
  - by intros s a.
  - intros s1 s2 s3 H12 H23 a. by rewrite H12.
Qed.

Lemma same_shape_table s s' a t :
  same_shape s s' → is_table s a t →
  ∃ t', is_table s' a t' ∧ fields t' = fields t ∧ loc t' = loc t.
Proof.
  intros Hs Ha. specialize (Hs a). unfold is_table in *. rewrite Ha in Hs.
  destruct (heap s' !! a) as [[l|t']|]; simplify_eq/=.
  exists t'. by destruct t, t'; simplify_eq/=.
Qed.

Lemma same_shape_leaf s s' a l :
  same_shape s s' → heap s !! a = Some (OLeaf l) →
  ∃ l', heap s' !! a = Some (OLeaf l').
Proof.
  intros Hs Ha. specialize (Hs a). rewrite Ha in Hs.
  destruct (heap s' !! a) as [[l'|t']|]; simplify_eq/=. eauto.
Qed.

Lemma resized_len_at n s s' a :
  resized n s s' → len_at s a n → len_at s' a n.
Proof.
  intros [Hs Hr] (o & Ho & Hlen).
  pose proof (Hs a) as Ha. rewrite Ho in Ha.
  destruct (heap s' !! a) as [o'|] eqn:Ho'; [|done].
  exists o'. split; [done|].
  destruct (Hr a o' Ho') as [Hsame|[Hn _]]; [|done].
  by simplify_eq.
Qed.

#[global] Instance resized_preorder n : PreOrder (resized (L:=L) n).
Proof.
  split.
  - intros s. split; [done|]. auto.
  - intros s1 s2 s3 H12 H23. split; [by etrans; [apply H12|apply H23]|].
    intros a o3 Ho3.
    destruct (proj2 H23 a o3 Ho3) as [Ho2|Hnew]; [|by right].
    destruct (proj2 H12 a o3 Ho2) as [Ho1|[Hlen Hcols]]; [by left|].
    right. split; [done|]. intros t -> k c Hkc.
    eapply resized_len_at; [exact H23|]. by eapply Hcols.
Qed.

(** Writing an object of length [n] with the skeleton of the one it
    replaces. *)
Lemma put_obj_resized n s a o o' :
  heap s !! a = Some o → skel o' = skel o → len_of o' = Some n →
  (∀ t, o' = OTable t → ∀ k c, (k, c) ∈ fields t → c ≠ a → len_at s c n) →
  resized n s (put_obj a o' s).2.
Proof.
  intros Ho Hsk Hlen Hcols. simpl.
  assert (a < length (heap s))%nat as Hlt by (by eapply lookup_lt_Some).
  split.
  - intros b. simpl. destruct (decide (b = a)) as [->|Hne].
    + rewrite list_lookup_insert_eq by done. rewrite Ho. simpl. by rewrite Hsk.
    + by rewrite list_lookup_insert_ne.
  - intros b ob. simpl. destruct (decide (b = a)) as [->|Hne].
    + rewrite list_lookup_insert_eq by done. intros ?; simplify_eq.
      right. split; [done|]. intros t -> k c Hkc.
      destruct (decide (c = a)) as [->|Hca].
      * exists (OTable t). simpl. by rewrite list_lookup_insert_eq.
      * destruct (Hcols t eq_refl k c Hkc Hca) as (oc & Hoc & Hlc).
        exists oc. simpl. by rewrite list_lookup_insert_ne.
    + rewrite list_lookup_insert_ne by done. auto.
Qed.

Lemma resized_heap_eq n s s' : heap s' = heap s → resized n s s'.
Proof.
  intros Heq. split.
  - intros a. by rewrite Heq.
  - intros a o'. rewrite Heq. auto.
Qed.

Lemma py_len_Ok o n : py_len o = Ok n ↔ len_of o = Some n ∧ 0 ≤ n ≤ maxsize.
Proof.
  unfold py_len. destruct (len_of o) as [m|]; [|naive_solver].
  destruct (Z.ltb_spec m 0), (Z.leb_spec m maxsize); split; intros Hx;
    simplify_eq; try done; try (destruct Hx as [[= ->] ?]; (done || lia)).
Qed.

Lemma py_len_len_of o n : py_len o = Ok n → len_of o = Some n.
Proof. by intros [? _]%py_len_Ok. Qed.

Lemma warn_if_heap (dw : bool) w s (u : unit) s1 :
  (if dw then log_warning w else ret tt) s = (Ok u, s1) → heap s1 = heap s.
Proof. destruct dw; unfold log_warning, ret; intros [= _ <-]; done. Qed.

Lemma with_table_lookup s self t t' :
  is_table s self t → is_table (with_table s self t') self t'.
Proof. intros Ht. apply list_lookup_insert_eq. by eapply lookup_lt_Some. Qed.

Lemma with_table_lookup_ne s self t' a :
  a ≠ self → heap (with_table s self t') !! a = heap s !! a.
Proof. intros Hne. simpl. by apply list_lookup_insert_ne. Qed.

Lemma with_table_id s self t : is_table s self t → with_table s self t = s.
Proof.
  intros Ht. destruct s as [h l]. unfold with_table. simpl in *.
  f_equal. by apply list_insert_id.
Qed.

Lemma with_table_len_of s self t t' a o :
  is_table s self t → size t' = size t → heap s !! a = Some o →
  ∃ o', heap (with_table s self t') !! a = Some o' ∧ len_of o' = len_of o.
Proof.
  intros Ht Hsz Ha. destruct (decide (a = self)) as [->|Hne].
  - exists (OTable t'). split; [by eapply with_table_lookup|].
    unfold is_table in Ht. simplify_eq. done.
  - exists o. by rewrite with_table_lookup_ne.
Qed.

Lemma with_table_len_at s self t t' a n :
  is_table s self t → size t' = size t → len_at s a n → len_at (with_table s self t') a n.
Proof.
  intros Ht Hsz (o & Ho & Hn).
  destruct (with_table_len_of s self t t' a o Ht Hsz Ho) as (o' & Ho' & Hlen).
  exists o'. split; [done|congruence].
Qed.

(** ** What [resize] leaves alone *)

Lemma put_obj_same_shape s a o o' :
  heap s !! a = Some o → skel o' = skel o → same_shape s (put_obj a o' s).2.
Proof.
  intros Ho Hsk b. simpl. destruct (decide (b = a)) as [->|Hne].
  - rewrite list_lookup_insert_eq by (by eapply lookup_lt_Some).
    rewrite Ho. simpl. by rewrite Hsk.
  - by rewrite list_lookup_insert_ne.
Qed.

Lemma same_shape_heap_eq s s' : heap s' = heap s → same_shape s s'.
Proof. intros Heq a. by rewrite Heq. Qed.

Lemma set_size_same_shape self v : preserves (L:=L) same_shape (set_size self v).
Proof.
  intros s. unfold set_size.
  apply bind_rel; [apply _|by rewrite get_table_state|].
  intros t ? [Ht ->]%get_table_Ok. by eapply put_obj_same_shape.
Qed.

Lemma resize_loop_same_shape rec items ns dw :
  (∀ a ns', preserves (L:=L) same_shape (rec a ns' false)) →
  preserves (L:=L) same_shape (resize_loop rec items ns dw).
Proof.
  intros Hrec. revert ns.
  induction items as [|[field a] rest IH]; intros ns s; simpl; [done|].
  apply bind_rel; [apply _|by rewrite get_obj_state|].
  intros o ? [Ho ->]%get_obj_Ok.
  apply bind_rel; [apply _|done|]. intros m ? [= Hm <-].
  destruct ns as [n|]; [|apply IH].
  destruct (m =? n) eqn:Hmn; simpl; [apply IH|].
  apply bind_rel; [apply _|by destruct dw; apply same_shape_heap_eq|].
  intros [] s1 Hs1. pose proof (warn_if_heap _ _ _ _ _ Hs1) as Hheap.
  apply bind_rel; [apply _| |intros; apply IH].
  destruct o as [l|t]; [|apply Hrec].
  destruct (col_resize l n) as [l'|] eqn:Hl'; [|done].
  eapply put_obj_same_shape; [by rewrite Hheap|done].
Qed.

Lemma resize_same_shape fuel self ns dw :
  preserves (L:=L) same_shape (resize fuel self ns dw).
Proof.
  revert self ns dw. induction fuel as [|fuel IH]; intros self ns dw s; [done|].
  simpl. apply bind_rel; [apply _|by rewrite get_table_state|].
  intros t ? [Ht ->]%get_table_Ok.
  apply bind_rel; [apply _|by apply resize_loop_same_shape|].
  intros r s1 _. apply set_size_same_shape.
Qed.

Lemma same_shape_sym s s' : same_shape s s' → same_shape s' s.
Proof. intros Hs a. by rewrite Hs. Qed.

Lemma reach_same_shape s s' a b : same_shape s s' → reach s a b → reach s' a b.
Proof.
  intros Hs. induction 1 as [a|a t k c b Ht Hkc _ IH]; [constructor|].
  destruct (same_shape_table _ _ _ _ Hs Ht) as (t' & Ht' & Hf & _).
  eapply reach_step; [exact Ht'| |exact IH]. by rewrite Hf.
Qed.

(** [resize] writes only to the table and to what is reachable from it. *)
Lemma resize_loop_frame rec items ns dw :
  (∀ a ns', preserves (L:=L) same_shape (rec a ns' false)) →
  (∀ a ns' s b, ¬ reach s a b → heap (rec a ns' false s).2 !! b = heap s !! b) →
  ∀ s b, (∀ k c, (k, c) ∈ items → ¬ reach s c b) →
    heap (resize_loop rec items ns dw s).2 !! b = heap s !! b.
Proof.
  intros Hshape Hrec. revert ns.
  induction items as [|[field a] rest IH]; intros ns s b Hb; simpl; [done|].
  assert (¬ reach s a b) as Hab by (eapply Hb; left).
  assert (∀ s1 ns', same_shape s s1 →
            heap (resize_loop rec rest ns' dw s1).2 !! b = heap s1 !! b) as Hrest.
  { intros s1 ns' Hs1. apply IH. intros k c Hkc Hr.
    eapply Hb; [by right|]. eapply reach_same_shape; [|exact Hr].
    by apply same_shape_sym. }
  unfold bind at 1. unfold get_obj. destruct (heap s !! a) as [o|] eqn:Ho; [|done].
  unfold bind at 1. unfold lift. destruct (py_len o) as [m| | |] eqn:Hm; try done.
  destruct ns as [n|]; [|by apply Hrest].
  destruct (m =? n) eqn:Hmn; simpl; [by apply Hrest|].
  unfold bind at 1.
  destruct ((if dw then log_warning (WarnResize field m n) else ret ()) s)
    as [[[]| | |] s1] eqn:Hs1; try (by destruct dw).
  pose proof (warn_if_heap _ _ _ _ _ Hs1) as Hheap.
  assert (same_shape s s1) as Hss1 by (by apply same_shape_heap_eq).
  unfold bind at 1.
  destruct o as [l|t].
  - destruct (col_resize l n) as [l'|] eqn:Hl'; simpl; [|by rewrite Hheap].
    rewrite Hrest; simpl.
    + rewrite Hheap. apply list_lookup_insert_ne. intros ->. apply Hab. constructor.
    + etrans; [exact Hss1|]. eapply (put_obj_same_shape s1); [by rewrite Hheap|done].
  - pose proof (Hshape a (Some n) s1) as Hs2.
    assert (heap (rec a (Some n) false s1).2 !! b = heap s !! b) as Hframe.
    { rewrite Hrec; [by rewrite Hheap|]. intros Hr. apply Hab.
      eapply reach_same_shape; [|exact Hr]. by apply same_shape_sym. }
    destruct (rec a (Some n) false s1) as [[[]| | |] s2]; simpl in *; try done.
    rewrite Hrest; [done|]. by etrans.
Qed.

Lemma resize_frame fuel self ns dw s b :
  ¬ reach s self b → heap (resize fuel self ns dw s).2 !! b = heap s !! b.
Proof.
  revert self ns dw s b.
  induction fuel as [|fuel IH]; intros self ns dw s b Hb; [done|]. simpl.
  unfold bind at 1. unfold get_table.
  destruct (heap s !! self) as [[l|t]|] eqn:Hself; try done.
  pose proof (resize_loop_frame (resize fuel) (fields t) ns dw
                (λ a ns', resize_same_shape fuel a ns' false)
                (λ a ns' s b, IH a ns' false s b) s b) as Hloop.
  pose proof (resize_loop_same_shape (resize fuel) (fields t) ns dw
                (λ a ns', resize_same_shape fuel a ns' false) s) as Hshape.
  unfold bind at 1.
  destruct (resize_loop (resize fuel) (fields t) ns dw s) as [[r| | |] s1];
    simpl in *;
    try (apply Hloop; intros k c Hkc Hr; apply Hb; by eapply reach_step).
  unfold set_size, bind, get_table.
  destruct (heap s1 !! self) as [[l1|t1]|] eqn:Hself1; simpl;
    try (apply Hloop; intros k c Hkc Hr; apply Hb; by eapply reach_step).
  rewrite list_lookup_insert_ne by (intros ->; apply Hb; constructor).
  apply Hloop; intros k c Hkc Hr; apply Hb; by eapply reach_step.
Qed.

Lemma resize_loop_ret rec items n dw s r s' :
  resize_loop rec items (Some n) dw s = (Ok r, s') → r = Some n.
Proof.
  revert s. induction items as [|[field a] rest IH]; intros s; simpl.
  { by intros [= <- _]. }
  intros (o & ? & _ & Hrun)%bind_Ok.
  apply bind_Ok in Hrun as (m & ? & _ & Hrun).
  destruct (negb (m =? n)); [|by eapply IH].
  apply bind_Ok in Hrun as ([] & s1 & _ & Hrun).
  apply bind_Ok in Hrun as ([] & s2 & _ & Hrun). by eapply IH.
Qed.

Lemma resize_Some_size fuel self n dw s s' :
  resize fuel self (Some n) dw s = (Ok tt, s') →
  ∃ t', is_table s' self t' ∧ size t' = Some n.
Proof.
  destruct fuel as [|fuel]; [done|]. simpl.
  intros (t & ? & _ & Hrun)%bind_Ok.
  apply bind_Ok in Hrun as (r & s1 & ->%resize_loop_ret & Hset).
  unfold set_size in Hset.
  apply bind_Ok in Hset as (t1 & ? & [Ht1 ->]%get_table_Ok & [= <-]).
  eexists. split; [by eapply (with_table_lookup s1)|done].
Qed.

(** ** What [resize] logs *)

#[global] Instance same_log_preorder : PreOrder (same_log (L:=L)).
Proof. split; [done|]. intros s1 s2 s3 H12 H23. unfold same_log in *. congruence. Qed.

Lemma resize_loop_quiet rec items ns :
  (∀ a ns', preserves (L:=L) same_log (rec a ns' false)) →
  preserves (L:=L) same_log (resize_loop rec items ns false).
Proof.
  intros Hrec. revert ns.
  induction items as [|[field a] rest IH]; intros ns s; simpl; [done|].
  apply bind_rel; [apply _|by rewrite get_obj_state|].
  intros o ? [Ho ->]%get_obj_Ok.
  apply bind_rel; [apply _|done|]. intros m ? [= Hm <-].
  destruct ns as [n|]; [|apply IH].
  destruct (m =? n) eqn:Hmn; simpl; [apply IH|].
  apply bind_rel; [apply _|done|]. intros [] ? [= <-].
  apply bind_rel; [apply _| |intros; apply IH].
  destruct o as [l|t]; [|apply Hrec].
  by destruct (col_resize l n).
Qed.

Lemma set_size_quiet self v : preserves (L:=L) same_log (set_size self v).
Proof.
  intros s. unfold set_size, bind, get_table.
  by destruct (heap s !! self) as [[l|t]|].
Qed.

Lemma resize_quiet fuel self ns : preserves (L:=L) same_log (resize fuel self ns false).
Proof.
  revert self ns. induction fuel as [|fuel IH]; intros self ns s; [done|].
  simpl. apply bind_rel; [apply _|by rewrite get_table_state|].
  intros t ? [Ht ->]%get_table_Ok.
  apply bind_rel; [apply _|by apply resize_loop_quiet|].
  intros r s1 _. apply set_size_quiet.
Qed.

Lemma separated_same_shape s s' items :
  same_shape s s' → separated s items → separated s' items.
Proof.
  intros Hs. induction items as [|[k c] rest IH]; simpl; [done|].
  intros [Hc Hrest]. split; [|by apply IH].
  intros k' c' Hkc Hr. eapply Hc; [exact Hkc|].
  eapply reach_same_shape; [|exact Hr]. by apply same_shape_sym.
Qed.

Lemma warnings_for_ext s s' n items :
  (∀ k c, (k, c) ∈ items → heap s' !! c = heap s !! c) →
  warnings_for s' n items = warnings_for s n items.
Proof.
  induction items as [|[k c] rest IH]; intros Heq; simpl; [done|].
  rewrite IH by (intros; eapply Heq; by right).
  unfold mismatch. simpl. by rewrite (Heq k c) by left.
Qed.

Lemma resize_loop_log fuel items n dw s r s' :
  separated s items →
  resize_loop (resize fuel) items (Some n) dw s = (Ok r, s') →
  log s' = log s ++ (if dw then warnings_for s n items else []).
Proof.
  revert s. induction items as [|[field a] rest IH]; intros s Hsep; simpl.
  { intros [= _ <-]. destruct dw; by rewrite app_nil_r. }
  destruct Hsep as [Ha Hsep].
  intros (o & ? & [Ho ->]%get_obj_Ok & Hrun)%bind_Ok.
  apply bind_Ok in Hrun as (m & ? & [= Hm <-] & Hrun).
  unfold mismatch. simpl. rewrite Ho, Hm.
  destruct (m =? n) eqn:Hmn; simpl in Hrun; [by apply IH|].
  apply bind_Ok in Hrun as ([] & s1 & Hs1 & Hrun).
  pose proof (warn_if_heap _ _ _ _ _ Hs1) as Hheap.
  apply bind_Ok in Hrun as ([] & s2 & Hs2 & Hrun).
  assert (same_shape s s1) as Hss1 by (by apply same_shape_heap_eq).
  assert (same_shape s1 s2 ∧ log s2 = log s1 ∧
          ∀ b, ¬ reach s a b → heap s2 !! b = heap s !! b) as (Hss2 & Hlog2 & Hfr).
  { destruct o as [l|t].
    - destruct (col_resize l n) as [l'|]; [|done]. injection Hs2 as <-.
      split; [eapply (put_obj_same_shape s1); [by rewrite Hheap|done]|].
      split; [done|]. intros b Hb. simpl. rewrite Hheap.
      apply list_lookup_insert_ne. intros ->. apply Hb. constructor.
    - pose proof (resize_same_shape fuel a (Some n) false s1) as Hx.
      pose proof (resize_quiet fuel a (Some n) s1) as Hy.
      pose proof (resize_frame fuel a (Some n) false s1) as Hz.
      rewrite Hs2 in Hx, Hy, Hz. simpl in *. split; [done|]. split; [done|].
      intros b Hb. rewrite Hz; [by rewrite Hheap|].
      intros Hr. apply Hb. eapply reach_same_shape; [|exact Hr].
      by apply same_shape_sym. }
  rewrite (IH s2); [| |exact Hrun].
  - rewrite Hlog2. destruct dw; injection Hs1 as <-; simpl.
    + rewrite <-app_assoc. simpl. f_equal. f_equal.
      apply warnings_for_ext. intros k c Hkc. apply Hfr. by eapply Ha.
    + done.
  - eapply separated_same_shape; [|exact Hsep]. by etrans.
Qed.

Section Resize.
Context `{!ColumnResize L N}.

Lemma resize_loop_resized rec items n dw :
  (∀ a, preserves (resized n) (rec a (Some n) false)) →
  preserves (resized n) (resize_loop rec items (Some n) dw).
Proof.
  intros Hrec. induction items as [|[field a] rest IH]; intros s; simpl; [done|].
  apply bind_rel; [apply _|by rewrite get_obj_state|].
  intros o ? [Ho ->]%get_obj_Ok.
  apply bind_rel; [apply _|done|]. intros m ? [= Hm <-].
  destruct (m =? n) eqn:Hmn; simpl; [apply IH|].
  apply bind_rel; [apply _|by destruct dw; apply resized_heap_eq|].
  intros [] s1 Hs1.
  pose proof (warn_if_heap _ _ _ _ _ Hs1) as Hheap.
  apply bind_rel; [apply _| |intros; apply IH].
  destruct o as [l|t]; [|apply Hrec].
  destruct (col_resize l n) as [l'|] eqn:Hl'; [|done].
  eapply put_obj_resized; [by rewrite Hheap|done| |done].
  simpl. by eapply resize_len.
Qed.

Lemma resize_loop_post rec items n dw s r s' :
  (∀ a, preserves (resized n) (rec a (Some n) false)) →
  (∀ a s s', rec a (Some n) false s = (Ok tt, s') → len_at s' a n) →
  resize_loop rec items (Some n) dw s = (Ok r, s') →
  r = Some n ∧ ∀ k c, (k, c) ∈ items → len_at s' c n.
Proof.
  intros Hrec Hpost. revert s.
  induction items as [|[field a] rest IH]; intros s; simpl.
  { intros [= <- <-]. split; [done|]. intros k c Hkc. by apply elem_of_nil in Hkc. }
  intros (o & ? & [Ho ->]%get_obj_Ok & Hrun)%bind_Ok.
  apply bind_Ok in Hrun as (m & ? & [= Hm <-] & Hrun).
  assert (∀ s1, len_at s1 a n →
            resize_loop rec rest (Some n) dw s1 = (Ok r, s') →
            r = Some n ∧ ∀ k c, (k, c) ∈ (field, a) :: rest → len_at s' c n) as Hrest.
  { intros s1 Ha Hloop. destruct (IH _ Hloop) as [-> Hcols]. split; [done|].
    intros k c [[= -> ->]|Hkc]%elem_of_cons; [|by eapply Hcols].
    eapply resized_len_at; [|exact Ha].
    pose proof (resize_loop_resized rec rest n dw Hrec s1) as Hr.
    by rewrite Hloop in Hr. }
  destruct (m =? n) eqn:Hmn; simpl in Hrun.
  { apply Z.eqb_eq in Hmn as ->. eapply Hrest; [|exact Hrun].
    exists o. split; [done|]. by apply py_len_len_of. }
  apply bind_Ok in Hrun as ([] & s1 & Hs1 & Hrun).
  pose proof (warn_if_heap _ _ _ _ _ Hs1) as Hheap.
  apply bind_Ok in Hrun as ([] & s2 & Hs2 & Hrun).
  eapply Hrest; [|exact Hrun].
  destruct o as [l|t]; [|by eapply Hpost].
  destruct (col_resize l n) as [l'|] eqn:Hl'; [|done].
  injection Hs2 as <-. exists (OLeaf l'). simpl. split.
  - rewrite Hheap. apply list_lookup_insert_eq. by eapply lookup_lt_Some.
  - by eapply resize_len.
Qed.

Lemma set_size_resized n s self t :
  is_table s self t →
  (∀ k c, (k, c) ∈ fields t → len_at s c n) →
  resized n s (set_size self (Some n) s).2.
Proof.
  intros Ht Hcols. unfold set_size.
  rewrite (bind_run _ _ s t s) by (by apply get_table_Ok).
  eapply put_obj_resized; [exact Ht|done|done|].
  intros ? [= <-] k c Hkc _. simpl in Hkc. eauto.
Qed.

(** [resize] with an explicit size: what it does to the store, and where
    it leaves the table when it returns. *)
Lemma resize_Some_spec fuel n :
  (∀ self dw, preserves (resized n) (resize fuel self (Some n) dw)) ∧
  (∀ self dw s s', resize fuel self (Some n) dw s = (Ok tt, s') →
     ∃ t', is_table s' self t' ∧ size t' = Some n ∧
           ∀ k c, (k, c) ∈ fields t' → len_at s' c n).
Proof.
  induction fuel as [|fuel [IHr IHp]].
  { split; [by intros self dw s|intros; discriminate]. }
  assert (∀ a s s', resize fuel a (Some n) false s = (Ok tt, s') → len_at s' a n)
    as Hlen.
  { intros a s s' (t' & Ht' & Hsz & _)%IHp. by exists (OTable t'). }
  assert (∀ a, preserves (resized n) (resize fuel a (Some n) false)) as Hrec
    by (intros; apply IHr).
  split.
  - intros self dw s. simpl.
    apply bind_rel; [apply _|by rewrite get_table_state|].
    intros t ? [Ht ->]%get_table_Ok.
    apply bind_rel; [apply _|by apply resize_loop_resized|].
    intros r s1 Hloop.
    pose proof (resize_loop_resized _ (fields t) n dw Hrec s) as Hr.
    rewrite Hloop in Hr. simpl in Hr.
    destruct (resize_loop_post _ _ _ _ _ _ _ Hrec Hlen Hloop) as [-> Hcols].
    destruct (same_shape_table _ _ _ _ (proj1 Hr) Ht) as (t1 & Ht1 & Hf & _).
    eapply set_size_resized; [exact Ht1|]. by rewrite Hf.
  - intros self dw s s'. simpl.
    intros (t & ? & [Ht ->]%get_table_Ok & Hrun)%bind_Ok.
    apply bind_Ok in Hrun as (r & s1 & Hloop & Hset).
    pose proof (resize_loop_resized _ (fields t) n dw Hrec s) as Hr.
    rewrite Hloop in Hr. simpl in Hr.
    destruct (resize_loop_post _ _ _ _ _ _ _ Hrec Hlen Hloop) as [-> Hcols].
    destruct (same_shape_table _ _ _ _ (proj1 Hr) Ht) as (t1 & Ht1 & Hf & _).
    pose proof (set_size_resized n s1 self t1 Ht1) as Hr2.
    unfold set_size in Hset, Hr2.
    rewrite (bind_run _ _ s1 t1 s1) in Hset, Hr2 by (by apply get_table_Ok).
    injection Hset as <-.
    assert (self < length (heap s1))%nat by (by eapply lookup_lt_Some).
    eexists. split; [apply list_lookup_insert_eq; done|]. split; [done|].
    simpl. intros k c Hkc. rewrite Hf in Hkc.
    eapply resized_len_at; [apply Hr2|]; [rewrite Hf|]; eauto.
Qed.

(** Without an explicit size, [resize] either leaves the store alone
    (it raised before writing anything), or the table is empty and gets
    [size = None], or the first column has a length and the call behaves
    as [resize] with that length. *)
Lemma resize_loop_None_cons rec k c rest dw s o n :
  heap s !! c = Some o → py_len o = Ok n →
  resize_loop rec ((k, c) :: rest) None dw s =
  resize_loop rec ((k, c) :: rest) (Some n) dw s.
Proof.
  intros Hc Hn. simpl.
  rewrite !(bind_run (get_obj c) _ s o s) by (by apply get_obj_Ok).
  rewrite !(bind_run (lift (py_len o)) _ s n s) by (unfold lift; by rewrite Hn).
  by rewrite Z.eqb_refl.
Qed.

Lemma resize_None_cons fuel self dw s t k c rest o n :
  is_table s self t → fields t = (k, c) :: rest →
  heap s !! c = Some o → py_len o = Ok n →
  resize fuel self None dw s = resize fuel self (Some n) dw s.
Proof.
  intros Ht Hf Hc Hn. destruct fuel as [|fuel]; [done|]. simpl.
  rewrite !(bind_run (get_table self) _ s t s) by (by apply get_table_Ok).
  rewrite Hf. apply bind_cong_l. by eapply resize_loop_None_cons.
Qed.

Lemma resize_None_cases fuel self dw s :
  ((resize fuel self None dw s).2 = s ∧ (resize fuel self None dw s).1 ≠ Ok tt) ∨
  (∃ t, is_table s self t ∧ fields t = [] ∧
        resize fuel self None dw s = set_size self None s) ∨
  (∃ t k c rest o n, is_table s self t ∧ fields t = (k, c) :: rest ∧
        heap s !! c = Some o ∧ py_len o = Ok n ∧
        resize fuel self None dw s = resize fuel self (Some n) dw s).
Proof.
  destruct fuel as [|fuel]; [by left|].
  destruct (heap s !! self) as [[l|t]|] eqn:Hself;
    try (left; simpl; unfold bind, get_table; by rewrite Hself).
  destruct (fields t) as [|[k c] rest] eqn:Hf.
  { right; left. exists t. split; [done|]. split; [done|]. simpl.
    rewrite (bind_run (get_table self) _ s t s) by (by apply get_table_Ok).
    by rewrite Hf. }
  destruct (heap s !! c) as [o|] eqn:Hc; last first.
  { left. simpl.
    rewrite (bind_run (get_table self) _ s t s) by (by apply get_table_Ok).
    rewrite Hf. simpl. unfold bind, get_obj. by rewrite Hc. }
  destruct (py_len o) as [n| | |] eqn:Hn;
    try (left; simpl;
         rewrite (bind_run (get_table self) _ s t s) by (by apply get_table_Ok);
         rewrite Hf; simpl; unfold bind, get_obj, lift; by rewrite Hc, Hn).
  right; right. exists t, k, c, rest, o, n. repeat (split; [done|]).
  by eapply resize_None_cons.
Qed.
End Resize.

(** ** Nested tables *)



Lemma resizable_le s n d d' a : (d ≤ d')%nat → resizable s n d a → resizable s n d' a.
Proof.
  intros Hle Hn. revert d' Hle.
  induction Hn as [d a l m Ha Hm Hres|d a t m Ht Hm _ IH]; intros d' Hle.
  - by eapply resizable_leaf.
  - destruct d' as [|d']; [lia|].
    eapply resizable_table; [exact Ht|exact Hm|]. intros k c Hkc. apply (IH k c Hkc). lia.
Qed.

Lemma resizable_py_len s n d a :
  resizable s n d a → ∃ o m, heap s !! a = Some o ∧ py_len o = Ok m.
Proof. destruct 1; eauto. Qed.

Lemma resizable_resized s s' n d a :
  0 ≤ n ≤ maxsize → resized n s s' → resizable s n d a → resizable s' n d a.
Proof.
  intros Hn Hr. induction 1 as [d a l m Ha Hm Hres|d a t m Ht Hm _ IH].
  - destruct (same_shape_leaf _ _ _ _ (proj1 Hr) Ha) as [l' Hl'].
    destruct (proj2 Hr a _ Hl') as [Hsame|[Hlen _]].
    + simplify_eq. by eapply resizable_leaf.
    + eapply (resizable_leaf _ _ _ _ _ n); [exact Hl'|by apply py_len_Ok|done].
  - destruct (same_shape_table _ _ _ _ (proj1 Hr) Ht) as (t' & Ht' & Hf & _).
    destruct (proj2 Hr a _ Ht') as [Hsame|[Hlen _]].
    + unfold is_table in Ht. simplify_eq.
      eapply resizable_table; [exact Ht'|exact Hm|]. exact IH.
    + eapply resizable_table; [exact Ht'|by apply py_len_Ok|]. by rewrite Hf.
Qed.

Lemma resizable_heap_eq s s' n d a :
  heap s' = heap s → resizable s n d a → resizable s' n d a.
Proof.
  intros Heq. induction 1 as [d a l m Ha Hm Hres|d a t m Ht Hm _ IH].
  - eapply resizable_leaf; [by rewrite Heq|exact Hm|exact Hres].
  - eapply resizable_table; [unfold is_table; by rewrite Heq|exact Hm|exact IH].
Qed.

(** ** [resize] returns *)

Section Total.
Context `{!ColumnResize L N}.

Lemma resize_loop_total rec d n dw :
  0 ≤ n ≤ maxsize →
  (∀ a, preserves (resized n) (rec a (Some n) false)) →
  (∀ a s t, is_table s a t → resizable s n d a →
     ∃ s', rec a (Some n) false s = (Ok tt, s')) →
  ∀ items s, (∀ k c, (k, c) ∈ items → resizable s n d c) →
    ∃ s', resize_loop rec items (Some n) dw s = (Ok (Some n), s').
Proof.
  intros Hn Hres Hrec. induction items as [|[field a] rest IH]; intros s Hitems.
  { by eexists. }
  simpl.
  assert (resizable s n d a) as Ha by (eapply Hitems; left).
  destruct (resizable_py_len s n d a Ha) as (o & m & Ho & Hm).
  rewrite (bind_run (get_obj a) _ s o s) by (by apply get_obj_Ok).
  rewrite (bind_run (lift (py_len o)) _ s m s) by (unfold lift; by rewrite Hm).
  destruct (m =? n) eqn:Hmn; simpl.
  { apply IH. intros k c Hkc. eapply Hitems. by right. }
  apply Z.eqb_neq in Hmn.
  set (s1 := ((if dw then log_warning (WarnResize field m n) else ret ()) s).2).
  assert ((if dw then log_warning (WarnResize field m n) else ret ()) s = (Ok tt, s1))
    as Hs1 by (by destruct dw).
  rewrite (bind_run _ _ s tt s1) by done.
  pose proof (warn_if_heap _ _ _ _ _ Hs1) as Hheap.
  assert (∃ s2, match o with
                | OLeaf l =>
                    match col_resize l n with
                    | Some l' => put_obj a (OLeaf l')
                    | None => raise ResizeError
                    end
                | OTable _ => rec a (Some n) false
                end s1 = (Ok tt, s2) ∧ resized n s1 s2) as (s2 & Hs2 & Hr2).
  { destruct o as [l|t].
    - assert (is_Some (col_resize l n)) as [l' Hl'].
      { inversion Ha as [d0 a0 l0 m0 Hl0 Hm0 Hres0|d0 a0 t0 m0 Ht0]; simplify_eq.
        - apply Hres0. congruence.
        - unfold is_table in Ht0. congruence. }
      rewrite Hl'.
      eexists. split; [done|].
      eapply (put_obj_resized n s1); [by rewrite Hheap|done| |done].
      by eapply resize_len.
    - destruct (Hrec a s1 t) as [s2 Hs2].
      + unfold is_table. by rewrite Hheap.
      + by eapply resizable_heap_eq.
      + exists s2. split; [done|]. pose proof (Hres a s1) as Hx.
        by rewrite Hs2 in Hx. }
  rewrite (bind_run _ _ s1 tt s2) by done.
  apply IH. intros k c Hkc.
  eapply resizable_resized; [exact Hn| |eapply Hitems; by right].
  etrans; [by apply resized_heap_eq|exact Hr2].
Qed.

Lemma resize_Some_total d self n dw s t :
  0 ≤ n ≤ maxsize → is_table s self t →
  (∀ k c, (k, c) ∈ fields t → resizable s n d c) →
  ∃ s', resize (S d) self (Some n) dw s = (Ok tt, s').
Proof.
  intros Hn. revert self dw s t.
  induction d as [|d IHd]; intros self dw s t Ht Hcols.
  - simpl. rewrite (bind_run (get_table self) _ s t s) by (by apply get_table_Ok).
    destruct (resize_loop_total (resize 0) 0 n dw Hn) with (items := fields t) (s := s)
      as [s1 Hs1]; [intros a s0; simpl; reflexivity| |done|].
    { intros a s0 t0 Ht0 Hnest. inversion Hnest; simplify_eq.
      unfold is_table in Ht0. congruence. }
    rewrite (bind_run _ _ s (Some n) s1) by done.
    pose proof (resize_loop_resized (resize 0) (fields t) n dw) as Hr.
    assert (∀ a, preserves (resized n) (resize 0 a (Some n) false)) as Hres
      by (intros a s0; simpl; reflexivity).
    specialize (Hr Hres s). rewrite Hs1 in Hr.
    destruct (same_shape_table _ _ _ _ (proj1 Hr) Ht) as (t1 & Ht1 & _).
    unfold set_size.
    rewrite (bind_run (get_table self) _ s1 t1 s1) by (by apply get_table_Ok).
    by eexists.
  - simpl resize at 1.
    rewrite (bind_run (get_table self) _ s t s) by (by apply get_table_Ok).
    assert (∀ a, preserves (resized n) (resize (S d) a (Some n) false)) as Hres
      by (intros; apply resize_Some_spec).
    destruct (resize_loop_total (resize (S d)) (S d) n dw Hn Hres)
      with (items := fields t) (s := s) as [s1 Hs1]; [|done|].
    { intros a s0 t0 Ht0 Hnest. inversion Hnest; simplify_eq.
      - unfold is_table in Ht0. congruence.
      - unfold is_table in *. simplify_eq. by eapply IHd. }
    rewrite (bind_run _ _ s (Some n) s1) by done.
    pose proof (resize_loop_resized (resize (S d)) (fields t) n dw Hres s) as Hr.
    rewrite Hs1 in Hr.
    destruct (same_shape_table _ _ _ _ (proj1 Hr) Ht) as (t1 & Ht1 & _).
    unfold set_size.
    rewrite (bind_run (get_table self) _ s1 t1 s1) by (by apply get_table_Ok).
    by eexists.
Qed.
End Total.

(** ** [add_field] in closed form *)

Lemma add_field_TypeError fuel self name a uos dw s o :
  heap s !! a = Some o → has_len o = false →
  add_field fuel self name a uos dw s = (Raise TypeError, s).
Proof.
  intros Ha Hlen. unfold add_field.
  rewrite (bind_run (get_obj a) _ s o s) by (by apply get_obj_Ok).
  by rewrite Hlen.
Qed.

Lemma add_field_unfold fuel self name a uos dw s t o :
  is_table s self t → heap s !! a = Some o → has_len o = true →
  add_field fuel self name a uos dw s =
  let s1 := with_table s self (add_col t name a) in
  match py_len o with
  | Ok n =>
      if bool_decide (size t = Some n) then (Ok tt, s1)
      else resize fuel self (if uos then Some n else size t) false s1
  | Raise e => (Raise e, s1)
  | OutOfFuel => (OutOfFuel, s1)
  | Stuck => (Stuck, s1)
  end.
Proof.
  intros Ht Ha Hlen. unfold add_field.
  rewrite (bind_run (get_obj a) _ s o s) by (by apply get_obj_Ok).
  rewrite Hlen. change (negb true) with false. cbv iota.
  set (s1 := with_table s self (add_col t name a)).
  assert (Struct_add_field self name a s = (Ok tt, s1)) as Hadd.
  { unfold Struct_add_field, set_fields.
    rewrite (bind_run (get_table self) _ s t s) by (by apply get_table_Ok).
    by rewrite (bind_run (get_table self) _ s t s) by (by apply get_table_Ok). }
  rewrite (bind_run _ _ s tt s1) by done.
  rewrite (bind_run (get_table self) _ s1 (add_col t name a) s1)
    by (apply get_table_Ok; split; [by eapply with_table_lookup|done]).
  destruct (with_table_len_of s self t (add_col t name a) a o Ht eq_refl Ha)
    as (o1 & Ho1 & Hlen1).
  rewrite (bind_run (get_obj a) _ s1 o1 s1) by (by apply get_obj_Ok).
  assert (py_len o1 = py_len o) as -> by (unfold py_len; by rewrite Hlen1).
  unfold bind, lift. simpl. destruct (py_len o) as [n| | |]; try done.
  by destruct (bool_decide (size t = Some n)).
Qed.

(** ** The methods keep the columns as long as the table *)

Section Invariant.
Context `{!ColumnResize L N}.

Lemma resize_table_inv fuel self ns dw s s' :
  resize fuel self ns dw s = (Ok tt, s') → table_inv s' self.
Proof.
  assert (∀ n, resize fuel self (Some n) dw s = (Ok tt, s') → table_inv s' self)
    as HSome.
  { intros n (t' & Ht' & Hsz & Hcols)%resize_Some_spec.
    exists t'. split; [done|]. eauto. }
  destruct ns as [n|]; [apply HSome|].
  destruct (resize_None_cases fuel self dw s)
    as [[_ Hs]|[(t & Ht & Hf & ->)|(t & k & c & rest & o & n & _ & _ & _ & _ & ->)]].
  - intros Hrun. rewrite Hrun in Hs. by destruct Hs.
  - unfold set_size. intros (t1 & ? & [Ht' ->]%get_table_Ok & [= <-])%bind_Ok.
    assert (t1 = t) as -> by (unfold is_table in Ht; congruence).
    exists (mkTable (fields t) None (loc t)). split.
    + apply list_lookup_insert_eq. by eapply lookup_lt_Some.
    + simpl. rewrite Hf. intros k c Hkc. by apply elem_of_nil in Hkc.
  - apply HSome.
Qed.

Lemma table_inv_heap s s' self : heap s' = heap s → table_inv s self → table_inv s' self.
Proof.
  intros Heq (t & Ht & Hcols). exists t. unfold is_table, len_at in *.
  rewrite Heq. split; [done|]. intros k c Hkc.
  destruct (Hcols k c Hkc) as (n & Hn & o & Ho & Hlen). eauto.
Qed.

Lemma set_loc_unfold self v s t :
  is_table s self t →
  set_loc self v s = (Ok tt, with_table s self (mkTable (fields t) (size t) v)).
Proof.
  intros Ht. unfold set_loc.
  by rewrite (bind_run (get_table self) _ s t s) by (by apply get_table_Ok).
Qed.

Lemma set_loc_table_inv self v s s' :
  table_inv s self → set_loc self v s = (Ok tt, s') → table_inv s' self.
Proof.
  intros (t & Ht & Hcols). rewrite (set_loc_unfold self v s t Ht). intros [= <-].
  eexists. split; [by eapply with_table_lookup|]. simpl.
  intros k c Hkc. destruct (Hcols k c Hkc) as (n & Hn & Hlen).
  exists n. split; [done|]. by eapply with_table_len_at.
Qed.

Lemma add_field_Ok_inv fuel self name a uos dw s s' :
  add_field fuel self name a uos dw s = (Ok tt, s') →
  ∃ o, heap s !! a = Some o ∧ has_len o = true.
Proof.
  unfold add_field. intros (o & ? & [Ho ->]%get_obj_Ok & Hrun)%bind_Ok.
  exists o. split; [done|]. by destruct (has_len o).
Qed.

Lemma add_field_table_inv fuel self name a uos dw s s' :
  table_inv s self →
  add_field fuel self name a uos dw s = (Ok tt, s') → table_inv s' self.
Proof.
  intros (t & Ht & Hcols) Hrun.
  destruct (add_field_Ok_inv _ _ _ _ _ _ _ _ Hrun) as (o & Ha & Hlen).
  rewrite (add_field_unfold _ _ _ _ _ _ _ t o Ht Ha Hlen) in Hrun. simpl in Hrun.
  destruct (py_len o) as [n| | |] eqn:Hn; try done.
  case_bool_decide as Hsz; [|by eapply resize_table_inv].
  injection Hrun as <-. exists (add_col t name a).
  split; [by eapply with_table_lookup|]. simpl.
  intros k c Hkc. exists n. split; [done|].
  apply elem_of_dict_set in Hkc as [Hkc| ->].
  - destruct (Hcols k c Hkc) as (n' & Hn' & Hc). simplify_eq.
    by eapply with_table_len_at.
  - eapply with_table_len_at; [exact Ht|done|].
    exists o. split; [done|]. by apply py_len_len_of.
Qed.

Lemma join_loop_table_inv fuel self other names dw s s' :
  table_inv s self →
  join_loop fuel self other names dw s = (Ok tt, s') → table_inv s' self.
Proof.
  revert s. induction names as [|name rest IH]; intros s Hinv; simpl.
  { by intros [= <-]. }
  intros (t & ? & [Ht ->]%get_table_Ok & Hrun)%bind_Ok.
  destruct (dict_get name (fields t)) as [a|]; [|done].
  apply bind_Ok in Hrun as ([] & s1 & Hadd & Hrun).
  eapply IH; [|exact Hrun]. by eapply add_field_table_inv.
Qed.

Lemma join_table_inv fuel self other cols dw s s' :
  table_inv s self →
  join fuel self other cols dw s = (Ok tt, s') → table_inv s' self.
Proof.
  intros Hinv. unfold join.
  intros (to & ? & [Hto ->]%get_table_Ok & Hrun)%bind_Ok.
  apply bind_Ok in Hrun as (ts & ? & [Hts ->]%get_table_Ok & Hrun).
  apply bind_Ok in Hrun as ([] & s1 & Hs1 & Hrun).
  eapply join_loop_table_inv; [|exact Hrun].
  eapply table_inv_heap; [|exact Hinv]. by eapply warn_if_heap.
Qed.

Lemma alloc_lookup_new (o : obj L) s : heap (alloc o s).2 !! length (heap s) = Some o.
Proof. simpl. by apply list_lookup_middle. Qed.

Lemma Table_init_table_inv fuel sz col_dict s self s' :
  Table_init fuel sz col_dict s = (Ok self, s') → table_inv s' self.
Proof.
  unfold Table_init. intros (a & s0 & [= <- <-] & Hrun)%bind_Ok.
  apply bind_Ok in Hrun as ([] & s1 & Hbody & Hrun).
  apply bind_Ok in Hrun as ([] & s2 & Hloc & [= <- <-]).
  eapply set_loc_table_inv; [|exact Hloc].
  set (t0 := mkTable (Struct_init col_dict) None 0) in *.
  set (s0 := mkState (heap s ++ [OTable t0]) (log s)) in *.
  assert (is_table s0 (length (heap s)) t0) as Ht0 by apply alloc_lookup_new.
  assert (Struct_init col_dict = [] →
          set_size (length (heap s)) (Some (default 1024 sz)) s0 = (Ok tt, s1) →
          table_inv s1 (length (heap s))) as Hempty.
  { intros Hnil. unfold set_size.
    rewrite (bind_run (get_table _) _ s0 t0 s0) by (by apply get_table_Ok).
    intros [= <-]. eexists. split; [by eapply (with_table_lookup s0)|].
    simpl. rewrite Hnil. by intros k c ?%elem_of_nil. }
  destruct col_dict as [[|kc d]|]; [by apply Hempty| |by apply Hempty].
  by eapply resize_table_inv.
Qed.
End Invariant.
End StoreFacts.

(** * The concrete columns satisfy the interface laws *)

#[export] Instance lgdo_resize_len : ColumnResize lgdo (list Z).
Proof.
  intros [v|xs] l' n; simpl; [done|].
  destruct (Z.leb_spec 0 n); [|done]. intros [= <-]. simpl. f_equal.
  rewrite length_take, length_app, length_replicate. lia.
Qed.

#[export] Instance const_engine_assign : PandasAssign (list Z).
Proof.
  split.
  - intros df col x m Hx Hdf. simpl in *.
    assert (forallb (λ ky : string * list Z, (length ky.2 =? length x)%nat) df = true)
      as ->; [|done].
    apply forallb_forall. intros [k y] Hin%list_elem_of_In.
    specialize (Hdf k y Hin). simpl. apply Nat.eqb_eq.
    assert (Z.of_nat (length y) = Z.of_nat (length x)) by congruence. lia.
  - intros df df' col x. simpl.
    destruct (forallb _ df); [by intros [= <-]|done].
Qed.

(** * Properties of the methods *)

Section Methods.
Context {L N : Type} `{Column L N} `{Pandas N}.
Implicit Types (s : state L) (o : obj L) (a c self : addr) (t : table) (n : Z).

(** C1, as the code has it.  When the constructor returns, and when
    [resize] returns, every column of the table is as long as the table's
    [size]; [add_field], [add_column] and [join], when they return, leave it
    so on the table they are called on if it was so before the call; and
    [__len__] returns [size].  Column objects are shared, not copied, so a
    call on one table can resize a column of another: see
    [shared_column]. *)
Theorem equal_length_columns `{!ColumnResize L N} :
  (∀ fuel sz col_dict s self s',
     Table_init fuel sz col_dict s = (Ok self, s') → table_inv s' self) ∧
  (∀ fuel self ns dw s s',
     resize fuel self ns dw s = (Ok tt, s') → table_inv s' self) ∧
  (∀ fuel self name a uos dw s s',
     table_inv s self →
     add_field fuel self name a uos dw s = (Ok tt, s') → table_inv s' self) ∧
  (∀ fuel self name a uos dw s s',
     table_inv s self →
     add_column fuel self name a uos dw s = (Ok tt, s') → table_inv s' self) ∧
  (∀ fuel self other cols dw s s',
     table_inv s self →
     join fuel self other cols dw s = (Ok tt, s') → table_inv s' self) ∧
  (∀ t, Table_len t = size t).
Proof.
  split; [intros; by eapply Table_init_table_inv|].
  split; [intros; by eapply resize_table_inv|].
  split; [intros; by eapply add_field_table_inv|].
  split; [intros; by eapply add_field_table_inv|].
  split; [intros; by eapply join_table_inv|].
  done.
Qed.

(** C2. The cursor [loc].  A table that has just been constructed has
    [loc = 0]; [push_row] adds one to [loc] and writes nothing else;
    [clear] sets [loc] to 0 and writes nothing else; and when [size] is an
    integer, [is_full] answers whether [loc >= size], writing nothing. *)
Theorem loc_cursor :
  (∀ fuel sz col_dict s self s',
     Table_init fuel sz col_dict s = (Ok self, s') →
     ∃ t, is_table s' self t ∧ loc t = 0) ∧
  (∀ s self t, is_table s self t →
     push_row self s = (Ok tt, with_table s self (mkTable (fields t) (size t) (loc t + 1))) ∧
     clear self s = (Ok tt, with_table s self (mkTable (fields t) (size t) 0)) ∧
     ∀ n, size t = Some n → is_full self s = (Ok (bool_decide (n ≤ loc t)), s)).
Proof.
  split.
  - intros fuel sz col_dict s self s'. unfold Table_init.
    intros (a & s0 & [= <- <-] & Hrun)%bind_Ok.
    apply bind_Ok in Hrun as ([] & s1 & Hbody & Hrun).
    apply bind_Ok in Hrun as ([] & s2 & Hloc & [= <- <-]).
    unfold set_loc in Hloc.
    apply bind_Ok in Hloc as (t1 & ? & [Ht1 ->]%get_table_Ok & [= <-]).
    eexists. split; [by eapply (with_table_lookup s1)|done].
  - intros s self t Ht. split; [|split].
    + unfold push_row.
      rewrite (bind_run (get_table self) _ s t s) by (by apply get_table_Ok).
      by apply set_loc_unfold.
    + by apply set_loc_unfold.
    + intros n Hn. unfold is_full.
      rewrite (bind_run (get_table self) _ s t s) by (by apply get_table_Ok).
      rewrite Hn. unfold ret. do 2 f_equal.
      destruct (Z.leb_spec n (loc t)); case_bool_decide; (done || lia).
Qed.



Lemma resizable_alloc s o n d a :
  resizable s n d a → resizable (mkState (heap s ++ [o]) (log s)) n d a.
Proof.
  induction 1 as [d a l m Ha Hm Hres|d a t m Ht Hm _ IH].
  - eapply resizable_leaf; [|exact Hm|exact Hres].
    simpl. rewrite lookup_app_l; [done|]. by eapply lookup_lt_Some.
  - eapply resizable_table; [|exact Hm|exact IH].
    unfold is_table. simpl. rewrite lookup_app_l; [done|]. by eapply lookup_lt_Some.
Qed.

Lemma reach_alloc s o a b :
  heap_closed s → (a < length (heap s))%nat →
  reach (mkState (heap s ++ [o]) (log s)) a b → reach s a b.
Proof.
  intros Hclosed Ha Hr. induction Hr as [a|a t k c b Ht Hkc _ IH]; [constructor|].
  assert (is_table s a t) as Ht'.
  { unfold is_table in *. simpl in Ht. by rewrite lookup_app_l in Ht. }
  eapply reach_step; [exact Ht'|exact Hkc|]. apply IH. by eapply Hclosed.
Qed.

Lemma separated_alloc s o items :
  heap_closed s → (∀ k c, (k, c) ∈ items → (c < length (heap s))%nat) →
  separated s items → separated (mkState (heap s ++ [o]) (log s)) items.
Proof.
  intros Hclosed. induction items as [|[k c] rest IH]; simpl; [done|].
  intros Hvalid [Hc Hrest]. split; [|apply IH; [|done]; intros; eapply Hvalid; by right].
  intros k' c' Hkc Hr. eapply Hc; [exact Hkc|].
  eapply reach_alloc; [done| |exact Hr]. eapply Hvalid. left.
Qed.

Lemma resize_log fuel self n dw s s' t :
  is_table s self t → separated s (fields t) →
  resize fuel self (Some n) dw s = (Ok tt, s') →
  log s' = log s ++ (if dw then warnings_for s n (fields t) else []).
Proof.
  intros Ht Hsep. destruct fuel as [|fuel]; [done|]. simpl.
  rewrite (bind_run (get_table self) _ s t s) by (by apply get_table_Ok).
  intros (r & s1 & Hloop & Hset)%bind_Ok.
  pose proof (set_size_quiet self r s1) as Hq. rewrite Hset in Hq.
  unfold same_log in Hq. simpl in Hq. rewrite Hq. by eapply resize_loop_log.
Qed.

(** Whether or not columns share objects, the warnings logged are among
    those owed to the lengths the fields had when the call started. *)
Lemma resize_loop_log_sound `{!ColumnResize L N} fuel items n dw s0 s r s' :
  resized n s0 s →
  resize_loop (resize fuel) items (Some n) dw s = (Ok r, s') →
  ∃ ws, log s' = log s ++ ws ∧ sublist ws (warnings_for s0 n items).
Proof.
  revert s. induction items as [|[field a] rest IH]; intros s Hr0; simpl.
  { intros [= _ <-]. exists []. by rewrite app_nil_r. }
  intros (o & ? & [Ho ->]%get_obj_Ok & Hrun)%bind_Ok.
  apply bind_Ok in Hrun as (m & ? & [= Hm <-] & Hrun).
  destruct (m =? n) eqn:Hmn; simpl in Hrun.
  { destruct (IH s Hr0 Hrun) as (ws & Hlog & Hsub).
    exists ws. split; [done|]. by apply sublist_inserts_l. }
  apply bind_Ok in Hrun as ([] & s1 & Hs1 & Hrun).
  pose proof (warn_if_heap _ _ _ _ _ Hs1) as Hheap.
  apply bind_Ok in Hrun as ([] & s2 & Hs2 & Hrun).
  assert (resized n s1 s2) as Hr12.
  { destruct o as [l|t].
    - destruct (col_resize l n) as [l'|] eqn:Hl'; [|done]. injection Hs2 as <-.
      eapply (put_obj_resized n s1); [by rewrite Hheap|done| |done].
      simpl. by eapply resize_len.
    - pose proof (proj1 (resize_Some_spec fuel n) a false s1) as Hx.
      by rewrite Hs2 in Hx. }
  assert (resized n s0 s2) as Hr02.
  { etrans; [exact Hr0|]. etrans; [|exact Hr12]. by apply resized_heap_eq. }
  destruct (IH s2 Hr02 Hrun) as (ws & Hlog & Hsub).
  assert (mismatch s0 n (field, a) = [WarnResize field m n]) as Hmis.
  { unfold mismatch. simpl.
    destruct (proj2 Hr0 a o Ho) as [Ho0|[Hlen _]].
    - by rewrite Ho0, Hm, Hmn.
    - apply py_len_len_of in Hm. apply Z.eqb_neq in Hmn. congruence. }
  rewrite Hmis. destruct dw; injection Hs1 as <-; simpl in *.
  + exists (WarnResize field m n :: ws). split.
    * pose proof (resize_quiet fuel a (Some n)) as Hq.
      assert (log s2 = log s ++ [WarnResize field m n]) as Hlog2.
      { destruct o as [l|t].
        - destruct (col_resize l n); [|done]. by injection Hs2 as <-.
        - specialize (Hq (mkState (heap s) (log s ++ [WarnResize field m n]))).
          rewrite Hs2 in Hq. exact Hq. }
      rewrite Hlog, Hlog2, <-app_assoc. done.
    * by apply sublist_skip.
  + exists ws. split; [|by apply sublist_cons].
    rewrite Hlog. f_equal.
    destruct o as [l|t].
    * destruct (col_resize l n); [|done]. by injection Hs2 as <-.
    * pose proof (resize_quiet fuel a (Some n) s) as Hq.
      rewrite Hs2 in Hq. exact Hq.
Qed.

Lemma resize_log_sound `{!ColumnResize L N} fuel self n dw s s' t :
  is_table s self t →
  resize fuel self (Some n) dw s = (Ok tt, s') →
  ∃ ws, log s' = log s ++ ws ∧ sublist ws (warnings_for s n (fields t)).
Proof.
  intros Ht. destruct fuel as [|fuel]; [done|]. simpl.
  rewrite (bind_run (get_table self) _ s t s) by (by apply get_table_Ok).
  intros (r & s1 & Hloop & Hset)%bind_Ok.
  pose proof (set_size_quiet self r s1) as Hq. rewrite Hset in Hq.
  unfold same_log in Hq. simpl in Hq. rewrite Hq.
  eapply resize_loop_log_sound; [|exact Hloop]. reflexivity.
Qed.

Lemma Table_init_quiet fuel n col_dict :
  preserves (L:=L) same_log (Table_init fuel (Some n) col_dict).
Proof.
  intros s. unfold Table_init.
  apply bind_rel; [apply _|done|]. intros a s0 _.
  apply bind_rel; [apply _| |].
  - destruct col_dict as [[|kc d]|]; try apply set_size_quiet. apply resize_quiet.
  - intros [] s1 _. apply bind_rel; [apply _| |done].
    unfold set_loc, bind, get_table. by destruct (heap s1 !! a) as [[]|].
Qed.

Lemma resize_Some_log_total `{!ColumnResize L N} fuel d self n s t :
  is_table s self t → (d < fuel)%nat → 0 ≤ n ≤ maxsize →
  (∀ k c, (k, c) ∈ fields t → resizable s n d c) →
  ∃ s', resize fuel self (Some n) true s = (Ok tt, s') ∧
        (∃ ws, log s' = log s ++ ws ∧ sublist ws (warnings_for s n (fields t))) ∧
        (separated s (fields t) → log s' = log s ++ warnings_for s n (fields t)).
Proof.
  intros Ht Hd Hn Hres. destruct fuel as [|fuel]; [lia|].
  destruct (resize_Some_total fuel self n true s t Hn Ht) as [s' Hrun].
  { intros k c Hkc. eapply resizable_le; [|by eapply Hres]. lia. }
  exists s'. split; [done|]. split; [by eapply resize_log_sound|].
  intros Hsep. by apply (resize_log (S fuel) self n true s s' t).
Qed.

Lemma resize_None_log_total `{!ColumnResize L N} fuel d self n s t k c rest o :
  is_table s self t → (d < fuel)%nat →
  fields t = (k, c) :: rest → heap s !! c = Some o → py_len o = Ok n →
  (∀ k' c', (k', c') ∈ fields t → resizable s n d c') →
  ∃ s', resize fuel self None true s = (Ok tt, s') ∧
        (∃ ws, log s' = log s ++ ws ∧ sublist ws (warnings_for s n (fields t))) ∧
        (separated s (fields t) → log s' = log s ++ warnings_for s n (fields t)).
Proof.
  intros Ht Hd Hf Hc Ho Hres.
  rewrite (resize_None_cons fuel self true s t k c rest o n) by done.
  eapply resize_Some_log_total; [done..| |done].
  by apply py_len_Ok in Ho as [_ ?].
Qed.

(** C4, as the code has it.  [resize] with [do_warn] false logs nothing,
    however it ends.  With [do_warn] true it logs one warning for every
    field whose length is not the target size, in field order, and nothing
    else, when the columns are separate objects: none is reached through
    one that comes before it.  When columns share objects it logs fewer:
    the warnings logged are among those, as a field that was resized through
    an earlier one is at the target when its turn comes
    ([aliased_columns]).  The target is [new_size], or the first column's
    length when there is none.  So does the constructor on a non-empty
    [col_dict] without a size, while with a size it logs nothing.  These
    calls do return when the columns can be resized to the target. *)
Theorem resize_warnings `{!ColumnResize L N} :
  (∀ fuel self ns s, log (resize fuel self ns false s).2 = log s) ∧
  (∀ fuel self n s s' t,
     is_table s self t →
     resize fuel self (Some n) true s = (Ok tt, s') →
     (∃ ws, log s' = log s ++ ws ∧ sublist ws (warnings_for s n (fields t))) ∧
     (separated s (fields t) → log s' = log s ++ warnings_for s n (fields t))) ∧
  (∀ fuel d self n s t,
     is_table s self t → (d < fuel)%nat →
     (∀ k c, (k, c) ∈ fields t → resizable s n d c) →
     (0 ≤ n ≤ maxsize →
      ∃ s', resize fuel self (Some n) true s = (Ok tt, s') ∧
            (∃ ws, log s' = log s ++ ws ∧ sublist ws (warnings_for s n (fields t))) ∧
            (separated s (fields t) → log s' = log s ++ warnings_for s n (fields t))) ∧
     (∀ k c rest o, fields t = (k, c) :: rest → heap s !! c = Some o →
        py_len o = Ok n →
        ∃ s', resize fuel self None true s = (Ok tt, s') ∧
              (∃ ws, log s' = log s ++ ws ∧ sublist ws (warnings_for s n (fields t))) ∧
              (separated s (fields t) → log s' = log s ++ warnings_for s n (fields t)))) ∧
  (∀ fuel d col_dict s k c rest o n,
     Struct_init (Some col_dict) = (k, c) :: rest →
     heap_closed s → (d < fuel)%nat →
     heap s !! c = Some o → py_len o = Ok n →
     (∀ k' c', (k', c') ∈ (k, c) :: rest → resizable s n d c') →
     ∃ s', Table_init fuel None (Some col_dict) s = (Ok (length (heap s)), s') ∧
           (∃ ws, log s' = log s ++ ws ∧ sublist ws (warnings_for s n ((k, c) :: rest))) ∧
           (separated s ((k, c) :: rest) →
            log s' = log s ++ warnings_for s n ((k, c) :: rest))) ∧
  (∀ fuel n col_dict s, log (Table_init fuel (Some n) col_dict s).2 = log s).
Proof.
  split; [intros; apply resize_quiet|].
  split.
  { intros fuel self n s s' t Ht Hrun.
    split; [by eapply resize_log_sound|].
    intros Hsep. by apply (resize_log fuel self n true s s' t). }
  split.
  { intros fuel d self n s t Ht Hd Hres.
    split; [intros Hn; by eapply resize_Some_log_total|].
    intros k c rest o Hf Hc Ho. by eapply resize_None_log_total. }
  split; [|intros; apply Table_init_quiet].
  intros fuel d col_dict s k c rest o n Hinit Hclosed Hd Hc Ho Hres.
  assert (∀ k' c', (k', c') ∈ (k, c) :: rest → (c' < length (heap s))%nat) as Hvalid.
  { intros k' c' Hkc. destruct (resizable_py_len _ _ _ _ (Hres k' c' Hkc)) as (o' & _ & Ho' & _).
    by eapply lookup_lt_Some. }
  destruct col_dict as [|kv cd]; [done|].
  unfold Table_init. rewrite Hinit.
  set (t0 := mkTable ((k, c) :: rest) None 0).
  set (s0 := mkState (heap s ++ [OTable t0]) (log s)).
  rewrite (bind_run (alloc (OTable t0)) _ s (length (heap s)) s0) by done.
  assert (is_table s0 (length (heap s)) t0) as Ht0 by apply alloc_lookup_new.
  assert (∀ k' c', (k', c') ∈ (k, c) :: rest → heap s0 !! c' = heap s !! c') as Hold.
  { intros k' c' Hkc. simpl. apply lookup_app_l. by eapply Hvalid. }
  assert (warnings_for s0 n ((k, c) :: rest) = warnings_for s n ((k, c) :: rest)) as Hw
    by (by apply warnings_for_ext).
  destruct (resize_None_log_total fuel d (length (heap s)) n s0 t0 k c rest o Ht0 Hd eq_refl)
    as (s1 & Hrun & Hsub & Hlog).
  { by rewrite (Hold k c) by left. }
  { done. }
  { intros k' c' Hkc. apply resizable_alloc. by apply (Hres k'). }
  rewrite (bind_run _ _ s0 tt s1) by exact Hrun.
  pose proof (resize_same_shape fuel (length (heap s)) None true s0) as Hsh.
  rewrite Hrun in Hsh. simpl in Hsh.
  destruct (same_shape_table _ _ _ _ Hsh Ht0) as (t1 & Ht1 & _).
  rewrite (bind_run _ _ s1 tt _ (set_loc_unfold _ 0 s1 t1 Ht1)).
  eexists. split; [done|]. simpl log. simpl fields in *. rewrite Hw in *.
  split; [exact Hsub|]. intros Hsep. apply Hlog. by apply separated_alloc.
Qed.

Lemma get_dataframe_loop_state self cols : ∀ df s,
  (get_dataframe_loop self cols df s).2 = s.
Proof.
  induction cols as [|col rest IH]; intros df s; simpl; [done|].
  symmetry. apply (bind_rel eq); [by rewrite get_table_state|].
  intros t ? [_ ->]%get_table_Ok.
  destruct (dict_get col (fields t)) as [c|]; [|done].
  apply (bind_rel eq); [by rewrite get_obj_state|].
  intros o ? [_ ->]%get_obj_Ok.
  destruct (nda_of o) as [x|]; [|done].
  destruct (df_set df col x); [|done]. by rewrite IH.
Qed.

Lemma get_dataframe_state self cols copy s : (get_dataframe self cols copy s).2 = s.
Proof.
  unfold get_dataframe. symmetry.
  apply (bind_rel eq); [by rewrite get_table_state|].
  intros t ? [_ ->]%get_table_Ok. by rewrite get_dataframe_loop_state.
Qed.

Lemma get_dataframe_loop_lacks s self t cols :
  is_table s self t →
  (∀ name, name ∈ cols → name ∈ dict_keys (fields t)) →
  (∀ k c, (k, c) ∈ fields t → is_Some (heap s !! c)) →
  (∃ name, name ∈ cols ∧ lacks_nda s t name) →
  ∀ df, (get_dataframe_loop self cols df s).1 = Raise ValueError.
Proof.
  intros Ht Hpresent Hvalid.
  induction cols as [|col rest IH]; intros (name & Hin & Hlacks) df.
  { by apply elem_of_nil in Hin. }
  simpl. rewrite (bind_run (get_table self) _ s t s) by (by apply get_table_Ok).
  destruct (proj2 (dict_get_keys col (fields t))) as [c Hc]; [apply Hpresent; left|].
  rewrite Hc. destruct (Hvalid col c) as [o Ho]; [by apply dict_get_elem|].
  rewrite (bind_run (get_obj c) _ s o s) by (by apply get_obj_Ok).
  destruct (nda_of o) as [x|] eqn:Hx; [|done].
  destruct (df_set df col x) as [df1|]; [|done].
  apply IH; [intros; apply Hpresent; by right|].
  exists name. split; [|done].
  apply elem_of_cons in Hin as [->|Hin]; [|done].
  destruct Hlacks as (c' & o' & Hc' & Ho' & Hx'). congruence.
Qed.

Lemma get_dataframe_loop_spec `{!PandasAssign N} s self t cols df :
  is_table s self t →
  (∀ name, name ∈ cols → name ∈ dict_keys (fields t)) →
  (∀ k c, (k, c) ∈ fields t → is_Some (heap s !! c)) →
  match (get_dataframe_loop self cols df s).1 with
  | Ok df' =>
      (∀ name, name ∈ cols → is_Some (column_nda s t name)) ∧
      (∀ name, name ∈ dict_keys df' ↔ name ∈ dict_keys df ∨ name ∈ cols)
  | Raise ValueError => True
  | _ => False
  end.
Proof.
  intros Ht Hpresent Hvalid. revert df.
  induction cols as [|col rest IH]; intros df; simpl.
  { split; [by intros ? ?%elem_of_nil|].
    intros name. split; [by left|]. by intros [?|?%elem_of_nil]. }
  rewrite (bind_run (get_table self) _ s t s) by (by apply get_table_Ok).
  destruct (proj2 (dict_get_keys col (fields t))) as [c Hc]; [apply Hpresent; left|].
  rewrite Hc. destruct (Hvalid col c) as [o Ho]; [by apply dict_get_elem|].
  rewrite (bind_run (get_obj c) _ s o s) by (by apply get_obj_Ok).
  destruct (nda_of o) as [x|] eqn:Hx; [|done].
  destruct (df_set df col x) as [df1|] eqn:Hset; [|done].
  assert (column_nda s t col = Some x) as Hcol.
  { unfold column_nda. rewrite Hc. simpl. rewrite Ho. done. }
  assert (∀ name, name ∈ rest → name ∈ dict_keys (fields t)) as Hrest
    by (intros name Hin; apply Hpresent; by right).
  specialize (IH Hrest df1).
  destruct (get_dataframe_loop self rest df1 s).1 as [df'|[]| |]; try done.
  destruct IH as (Hall & Hkeys). split.
  - intros name [->|Hin]%elem_of_cons; [by rewrite Hcol|by apply Hall].
  - intros name. rewrite Hkeys, (df_set_keys _ _ _ _ Hset), dict_keys_set, elem_of_cons.
    case_decide as Hin; [|rewrite elem_of_app, list_elem_of_singleton]; naive_solver.
Qed.

Lemma get_dataframe_loop_rows `{!PandasAssign N} s self t cols m :
  is_table s self t →
  (∀ name, name ∈ cols → ∃ x, column_nda s t name = Some x ∧ nda_len x = Some m) →
  ∀ df, (∀ k y, (k, y) ∈ df → nda_len y = Some m) →
  ∃ df', get_dataframe_loop self cols df s = (Ok df', s) ∧
         (∀ name, name ∈ dict_keys df' ↔ name ∈ dict_keys df ∨ name ∈ cols) ∧
         (∀ name, name ∈ cols → dict_get name df' = column_nda s t name) ∧
         (∀ name, name ∉ cols → dict_get name df' = dict_get name df).
Proof.
  intros Ht. induction cols as [|col rest IH]; intros Hcols df Hdf; simpl.
  { exists df. split; [done|]. split; [|split].
    - intros name. split; [by left|]. by intros [?|?%elem_of_nil].
    - by intros ? ?%elem_of_nil.
    - done. }
  rewrite (bind_run (get_table self) _ s t s) by (by apply get_table_Ok).
  destruct (Hcols col) as (x & Hcol & Hx); [left|].
  pose proof Hcol as Hcol'. unfold column_nda in Hcol'.
  destruct (dict_get col (fields t)) as [c|]; [|done]. simpl in Hcol'.
  destruct (heap s !! c) as [o|] eqn:Ho; [|done]. simpl in Hcol'.
  rewrite (bind_run (get_obj c) _ s o s) by (by apply get_obj_Ok).
  rewrite Hcol', (df_set_rows df col x m Hx Hdf).
  assert (∀ name, name ∈ rest →
            ∃ x, column_nda s t name = Some x ∧ nda_len x = Some m) as Hrest
    by (intros name Hin; apply Hcols; by right).
  destruct (IH Hrest (dict_set col x df)) as (df' & -> & Hkeys & Hget & Hother).
  { intros k y [Hin| ->]%elem_of_dict_set; [by eapply Hdf|done]. }
  exists df'. split; [done|]. split; [|split].
  - intros name. rewrite Hkeys, dict_keys_set, elem_of_cons.
    case_decide as Hin; [|rewrite elem_of_app, list_elem_of_singleton]; naive_solver.
  - intros name [->|Hin]%elem_of_cons; [|by apply Hget].
    destruct (decide (col ∈ rest)) as [Hin|Hnin]; [by apply Hget|].
    rewrite Hother by done. by rewrite dict_get_set, String.eqb_refl.
  - intros name Hnin. rewrite Hother by (intros ?; apply Hnin; by right).
    rewrite dict_get_set.
    destruct (String.eqb_spec name col) as [->|]; [|done].
    exfalso. apply Hnin. left.
Qed.

(** C5, as the code has it.  For a list of names of columns of the table
    (all of them by default): [get_dataframe] raises [ValueError] when one
    of the named columns has no [nda]; but not only then, as pandas raises
    [ValueError] too when it is given values that are not as long as the
    frame ([dataframe_after_sharing]).  When the call returns, every named
    column has an [nda] and the frame has the named columns; it does return
    when the named columns have one-dimensional [nda] of one length, and
    then each column of the frame holds the [nda] of its column.  It ends in
    no other way, and it writes nothing, however it ends. *)
Theorem get_dataframe_error `{!PandasAssign N} :
  ∀ s self t cols copy, is_table s self t →
    let names := match cols with None => dict_keys (fields t) | Some l => l end in
    (∀ name, name ∈ names → name ∈ dict_keys (fields t)) →
    (∀ k c, (k, c) ∈ fields t → is_Some (heap s !! c)) →
    (get_dataframe self cols copy s).2 = s ∧
    ((∃ name, name ∈ names ∧ lacks_nda s t name) →
       (get_dataframe self cols copy s).1 = Raise ValueError) ∧
    (∀ df, (get_dataframe self cols copy s).1 = Ok df →
       (∀ name, name ∈ names → is_Some (column_nda s t name)) ∧
       (∀ name, name ∈ dict_keys df ↔ name ∈ names)) ∧
    (∀ m, (∀ name, name ∈ names →
             ∃ x, column_nda s t name = Some x ∧ nda_len x = Some m) →
       ∃ df, (get_dataframe self cols copy s).1 = Ok df ∧
             (∀ name, name ∈ dict_keys df ↔ name ∈ names) ∧
             (∀ name, name ∈ names → dict_get name df = column_nda s t name)) ∧
    ((∃ df, (get_dataframe self cols copy s).1 = Ok df) ∨
     (get_dataframe self cols copy s).1 = Raise ValueError).
Proof.
  intros s self t cols copy Ht names Hpresent Hvalid.
  split; [apply get_dataframe_state|].
  unfold get_dataframe.
  rewrite (bind_run (get_table self) _ s t s) by (by apply get_table_Ok).
  fold names.
  pose proof (get_dataframe_loop_spec s self t names [] Ht Hpresent Hvalid) as Hspec.
  split; [intros Hlacks; by eapply get_dataframe_loop_lacks|].
  split; [|split].
  - intros df Hdf. rewrite Hdf in Hspec. destruct Hspec as [Hall Hkeys].
    split; [done|]. intros name. rewrite Hkeys. split; [|by right].
    by intros [?%elem_of_nil|?].
  - intros m Hrows.
    destruct (get_dataframe_loop_rows s self t names m Ht Hrows [])
      as (df & -> & Hkeys & Hget & _); [by intros k y ?%elem_of_nil|].
    exists df. split; [done|]. split; [|done].
    intros name. rewrite Hkeys. split; [|by right].
    by intros [?%elem_of_nil|?].
  - destruct (get_dataframe_loop self names [] s).1 as [df|[]| |]; try done; eauto.
Qed.

Lemma join_fields_get_notin from names d name :
  name ∉ names → dict_get name (join_fields from names d) = dict_get name d.
Proof.
  revert d. induction names as [|x rest IH]; intros d Hnin; simpl; [done|].
  rewrite IH by (intros ?; apply Hnin; by right).
  destruct (dict_get x from) as [c|]; [|done].
  rewrite dict_get_set. destruct (String.eqb_spec name x) as [->|]; [|done].
  exfalso. apply Hnin. left.
Qed.

Lemma join_fields_get_in from names d name :
  name ∈ names → is_Some (dict_get name from) →
  dict_get name (join_fields from names d) = dict_get name from.
Proof.
  revert d. induction names as [|x rest IH]; intros d Hin [c Hc]; simpl.
  { by apply elem_of_nil in Hin. }
  destruct (decide (name ∈ rest)) as [Hrest|Hrest]; [by apply IH|].
  apply elem_of_cons in Hin as [->|?]; [|done].
  rewrite join_fields_get_notin by done.
  by rewrite Hc, dict_get_set, String.eqb_refl.
Qed.

Lemma join_fields_id d names : join_fields d names d = d.
Proof.
  induction names as [|x rest IH]; simpl; [done|].
  destruct (dict_get x d) as [c|] eqn:Hc; [|done]. by rewrite dict_set_get_id.
Qed.

Lemma py_len_has_len o n : py_len o = Ok n → has_len o = true.
Proof.
  intros [Hlen _]%py_len_Ok. destruct o as [l|t]; [|done]. simpl in *. by rewrite Hlen.
Qed.

Lemma add_column_same_size fuel self name a uos dw s t o n :
  is_table s self t → heap s !! a = Some o → py_len o = Ok n → size t = Some n →
  add_column fuel self name a uos dw s = (Ok tt, with_table s self (add_col t name a)).
Proof.
  intros Ht Ha Hn Hsz. unfold add_column.
  rewrite (add_field_unfold _ _ _ _ _ _ _ t o Ht Ha (py_len_has_len _ _ Hn)).
  simpl. rewrite Hn. by rewrite bool_decide_true.
Qed.

Lemma join_loop_spec fuel self other names dw s ts to n :
  is_table s self ts → is_table s other to → size ts = Some n →
  (∀ name, name ∈ names → name ∈ dict_keys (fields to)) →
  (∀ k c, (k, c) ∈ fields to → ∃ o, heap s !! c = Some o ∧ py_len o = Ok n) →
  join_loop fuel self other names dw s =
  (Ok tt, with_table s self
            (mkTable (join_fields (fields to) names (fields ts)) (size ts) (loc ts))).
Proof.
  intros Hts Hto Hsz Hnames Hcols.
  destruct (decide (other = self)) as [->|Hne].
  - assert (to = ts) as -> by (unfold is_table in *; congruence).
    rewrite join_fields_id.
    replace (mkTable (fields ts) (size ts) (loc ts)) with ts by (by destruct ts).
    rewrite (with_table_id s self ts Hts). clear Hto.
    induction names as [|name rest IH]; simpl; [done|].
    rewrite (bind_run (get_table self) _ s ts s) by (by apply get_table_Ok).
    destruct (proj2 (dict_get_keys name (fields ts))) as [c Hc]; [apply Hnames; left|].
    rewrite Hc. destruct (Hcols name c) as (o & Ho & Hn); [by apply dict_get_elem|].
    rewrite (bind_run _ _ s tt s).
    + apply IH. intros; apply Hnames; by right.
    + rewrite (add_column_same_size _ _ _ _ _ _ _ ts o n) by done.
      unfold add_col. rewrite dict_set_get_id by done.
      replace (mkTable (fields ts) (size ts) (loc ts)) with ts by (by destruct ts).
      by rewrite with_table_id.
  - revert s ts Hts Hto Hsz Hcols.
    induction names as [|name rest IH]; intros s ts Hts Hto Hsz Hcols; simpl.
    { replace (mkTable (fields ts) (size ts) (loc ts)) with ts by (by destruct ts).
      by rewrite with_table_id. }
    rewrite (bind_run (get_table other) _ s to s) by (by apply get_table_Ok).
    destruct (proj2 (dict_get_keys name (fields to))) as [c Hc]; [apply Hnames; left|].
    rewrite Hc. destruct (Hcols name c) as (o & Ho & Hn); [by apply dict_get_elem|].
    rewrite (bind_run _ _ s tt (with_table s self (add_col ts name c)))
      by (by eapply add_column_same_size).
    assert (∀ x, x ∈ rest → x ∈ dict_keys (fields to)) as Hrest
      by (intros x Hx; apply Hnames; by right).
    rewrite (IH Hrest _ (add_col ts name c)); simpl.
    + f_equal. unfold with_table. simpl. f_equal.
      by rewrite list_insert_insert_eq.
    + by eapply with_table_lookup.
    + unfold is_table. by rewrite with_table_lookup_ne.
    + done.
    + intros k c' Hkc. destruct (Hcols k c' Hkc) as (o' & Ho' & Hn').
      destruct (with_table_len_of s self ts (add_col ts name c) c' o' Hts eq_refl Ho')
        as (o1 & Ho1 & Hlen1).
      exists o1. split; [done|]. unfold py_len in *. by rewrite Hlen1.
Qed.

Lemma add_column_join_step `{!ColumnResize L N} fuel self other name c dw s s' ts to n :
  is_table s self ts → is_table s other to →
  size ts = Some n → size to = Some n → dict_get name (fields to) = Some c →
  add_column fuel self name c false dw s = (Ok tt, s') →
  ∃ ts' to',
    is_table s' self ts' ∧ fields ts' = dict_set name c (fields ts) ∧
    size ts' = Some n ∧ loc ts' = loc ts ∧
    is_table s' other to' ∧ fields to' = fields to ∧
    size to' = Some n ∧ loc to' = loc to.
Proof.
  intros Hts Hto Hszs Hszo Hc Hrun. unfold add_column in Hrun.
  destruct (add_field_Ok_inv _ _ _ _ _ _ _ _ Hrun) as (o & Ho & Hlen).
  rewrite (add_field_unfold _ _ _ _ _ _ _ ts o Hts Ho Hlen) in Hrun. simpl in Hrun.
  set (s1 := with_table s self (add_col ts name c)) in *.
  assert (is_table s1 self (add_col ts name c)) as Hts1 by (by eapply with_table_lookup).
  assert (∃ to1, is_table s1 other to1 ∧ fields to1 = fields to ∧
                 size to1 = Some n ∧ loc to1 = loc to) as (to1 & Hto1 & Hf1 & Hsz1 & Hl1).
  { destruct (decide (other = self)) as [->|Hne].
    - assert (to = ts) as -> by (unfold is_table in *; congruence).
      exists (add_col ts name c). split; [done|]. simpl.
      by rewrite dict_set_get_id.
    - exists to. split; [|done]. unfold is_table, s1.
      by rewrite with_table_lookup_ne. }
  destruct (py_len o) as [m| | |]; try done.
  case_bool_decide.
  { injection Hrun as <-. exists (add_col ts name c), to1. by repeat split. }
  rewrite Hszs in Hrun.
  pose proof (proj1 (resize_Some_spec fuel n) self false s1) as Hr.
  rewrite Hrun in Hr. simpl in Hr.
  destruct (resize_Some_size _ _ _ _ _ _ Hrun) as (ts' & Hts' & Hsz').
  destruct (same_shape_table _ _ _ _ (proj1 Hr) Hts1) as (ts'' & Hts'' & Hfs & Hls).
  assert (ts'' = ts') as -> by (unfold is_table in *; congruence).
  destruct (same_shape_table _ _ _ _ (proj1 Hr) Hto1) as (to' & Hto' & Hfo & Hlo).
  exists ts', to'. repeat (split; [done || congruence|]).
  split; [|congruence].
  destruct (proj2 Hr other _ Hto') as [Hsame|[Hn _]]; [|done].
  unfold is_table in Hto1. congruence.
Qed.

Lemma join_loop_partial `{!ColumnResize L N} fuel self other names dw s s' ts to n :
  is_table s self ts → is_table s other to →
  size ts = Some n → size to = Some n →
  join_loop fuel self other names dw s = (Ok tt, s') →
  (∀ name, name ∈ names → is_Some (dict_get name (fields to))) ∧
  ∃ ts' to',
    is_table s' self ts' ∧
    fields ts' = join_fields (fields to) names (fields ts) ∧
    size ts' = Some n ∧ loc ts' = loc ts ∧
    is_table s' other to' ∧ fields to' = fields to ∧
    size to' = Some n ∧ loc to' = loc to.
Proof.
  revert s ts to. induction names as [|name rest IH];
    intros s ts to Hts Hto Hszs Hszo; simpl.
  { intros [= <-]. split; [by intros ? ?%elem_of_nil|]. exists ts, to. by repeat split. }
  intros (t & ? & [Ht ->]%get_table_Ok & Hrun)%bind_Ok.
  assert (t = to) as -> by (unfold is_table in *; congruence).
  destruct (dict_get name (fields to)) as [c|] eqn:Hc; [|done].
  apply bind_Ok in Hrun as ([] & s1 & Hadd & Hloop).
  destruct (add_column_join_step _ _ _ _ _ _ _ _ _ _ _ Hts Hto Hszs Hszo Hc Hadd)
    as (ts1 & to1 & Hts1 & Hfs1 & Hszs1 & Hls1 & Hto1 & Hfo1 & Hszo1 & Hlo1).
  destruct (IH _ _ _ Hts1 Hto1 Hszs1 Hszo1 Hloop)
    as (Hkeys & ts' & to' & Hts' & Hfs' & Hszs' & Hls' & Hto' & Hfo' & Hszo' & Hlo').
  split.
  - intros x [->|Hx]%elem_of_cons; [by rewrite Hc|].
    rewrite <-Hfo1. by apply Hkeys.
  - exists ts', to'. rewrite Hfs', Hfo1, Hfs1.
    repeat (split; [done || congruence|]). congruence.
Qed.

(** C7. [join].  For two tables of equal size: when [join] returns, each
    name taken from [other_table] (all of them without [cols], the listed
    ones with it) denotes in [self] the very object it denotes in
    [other_table], the other names of [self] denote what they did, and
    [other_table] has its dictionary, [size] and [loc] as before.  The call
    returns, and writes no object but [self], when the names are columns of
    [other_table] and these are as long as its [size]. *)
Theorem join_shares_columns `{!ColumnResize L N} :
  ∀ fuel self other cols dw s ts to,
    is_table s self ts → is_table s other to → size ts = size to →
    let names := match cols with None => dict_keys (fields to) | Some l => l end in
    (∀ n s', size to = Some n →
       join fuel self other cols dw s = (Ok tt, s') →
       joined s' self other ts to names) ∧
    ((∀ k c, (k, c) ∈ fields to →
        ∃ o n, heap s !! c = Some o ∧ py_len o = Ok n ∧ size to = Some n) →
     (∀ name, name ∈ names → name ∈ dict_keys (fields to)) →
     ∃ s', join fuel self other cols dw s = (Ok tt, s') ∧
           joined s' self other ts to names ∧
           (∀ a, a ≠ self → heap s' !! a = heap s !! a)).
Proof.
  intros fuel self other cols dw s ts to Hts Hto Hsz names.
  unfold join.
  rewrite !(bind_run (get_table other) _ s to s) by (by apply get_table_Ok).
  rewrite !(bind_run (get_table self) _ s ts s) by (by apply get_table_Ok).
  fold names.
  set (w := if negb (loc to =? loc ts) && dw
            then log_warning (WarnJoinLoc (loc to) (loc ts)) else ret ()).
  assert (∃ s1, w s = (Ok tt, s1) ∧ heap s1 = heap s) as (s1 & Hw & Hheap).
  { unfold w. destruct (negb (loc to =? loc ts) && dw); by eexists. }
  rewrite !(bind_run w _ s tt s1) by done.
  assert (is_table s1 self ts) as Hts1 by (unfold is_table; by rewrite Hheap).
  assert (is_table s1 other to) as Hto1 by (unfold is_table; by rewrite Hheap).
  clearbody names. split.
  - intros n s' Hn Hloop.
    destruct (join_loop_partial _ _ _ _ _ _ _ _ _ n Hts1 Hto1 ltac:(congruence) Hn Hloop)
      as (Hkeys & ts' & to' & Hts' & Hfs' & Hszs' & Hls' & Hto' & Hfo' & Hszo' & Hlo').
    exists ts', to'. split; [done|]. split; [done|]. rewrite Hfs'.
    split; [intros name Hin; split; [auto|apply join_fields_get_in; auto]|].
    split; [intros name Hnin; by apply join_fields_get_notin|].
    repeat (split; [done || congruence|]). done.
  - intros Hcols Hnames.
    set (ts' := mkTable (join_fields (fields to) names (fields ts)) (size ts) (loc ts)).
    assert (join_loop fuel self other names dw s1 = (Ok tt, with_table s1 self ts'))
      as Hloop.
    { unfold ts'. clear ts'. destruct names as [|name rest].
      - simpl. unfold ret. f_equal. symmetry.
        replace (mkTable (fields ts) (size ts) (loc ts)) with ts by (by destruct ts).
        by apply with_table_id.
      - destruct (proj2 (dict_get_keys name (fields to))) as [c Hc]; [apply Hnames; left|].
        destruct (Hcols name c) as (o & n & _ & _ & Hton); [by apply dict_get_elem|].
        eapply (join_loop_spec _ _ _ _ _ _ _ _ n); [done|done|congruence|done|].
        intros k c' Hkc. destruct (Hcols k c' Hkc) as (o' & n' & Ho' & Hn' & Hsz').
        exists o'. rewrite Hheap. split; [done|]. congruence. }
    exists (with_table s1 self ts'). split; [done|]. split.
    + exists ts', (if decide (other = self) then ts' else to).
      split; [by eapply with_table_lookup|].
      split.
      { destruct (decide (other = self)) as [->|Hne]; [by eapply with_table_lookup|].
        unfold is_table. by rewrite with_table_lookup_ne. }
      split.
      { intros name Hin. assert (is_Some (dict_get name (fields to)))
          by (apply dict_get_keys; auto).
        split; [done|]. by apply join_fields_get_in. }
      split; [intros name Hnin; by apply join_fields_get_notin|].
      assert (other = self → to = ts) as Hsame
        by (intros ->; unfold is_table in *; congruence).
      split; [|split; [|split]].
      * case_decide as Heq; [|done]. unfold ts'. simpl.
        rewrite (Hsame Heq). apply join_fields_id.
      * case_decide as Heq; [|done]. unfold ts'. simpl. by rewrite (Hsame Heq).
      * case_decide as Heq; [|done]. unfold ts'. simpl. by rewrite (Hsame Heq).
      * done.
    + intros a Ha. rewrite with_table_lookup_ne by done. by rewrite Hheap.
Qed.

(** ** [eval] *)

Lemma reach_flat s a t b :
  is_table s a t →
  (∀ k c, (k, c) ∈ fields t → ∃ l, heap s !! c = Some (OLeaf l)) →
  reach s a b → b = a ∨ ∃ k, (k, b) ∈ fields t.
Proof.
  intros Ht Hflat Hr. destruct Hr as [a|a t' k c b Ht' Hkc Hr]; [by left|].
  assert (t' = t) as -> by (unfold is_table in *; congruence).
  right. exists k. destruct (Hflat k c Hkc) as [l Hl].
  destruct Hr as [c|c t'' k' c' b Ht'' _ _]; [done|].
  unfold is_table in Ht''. congruence.
Qed.

Section EvalStep.
Context `{!ColumnResize L N}.
Variables (h0 : list (obj L)) (n : Z) (s : state L) (keys : list string).
Variables (fuel : nat) (v : string) (x : N).
Hypothesis Hinv : out_inv h0 n s keys.

Let a := length (heap s).
Let sa := mkState (heap s ++ [OLeaf (Array x)]) (log s).

Lemma eval_step_flat t :
  is_table s (length h0) t →
  let s1 := with_table sa (length h0) (add_col t v a) in
  is_table sa (length h0) t ∧
  heap sa !! a = Some (OLeaf (Array x)) ∧
  is_table s1 (length h0) (add_col t v a) ∧
  (∀ k c, (k, c) ∈ fields (add_col t v a) →
     (length h0 < c)%nat ∧ ∃ l, heap s1 !! c = Some (OLeaf l) ∧
        (c = a ∧ l = Array x ∨ col_len l = Some n)) ∧
  (∀ b, (b < length h0)%nat → heap s1 !! b = h0 !! b).
Proof.
  intros Ht s1. destruct Hinv as (t' & Ht' & Hsz & Hkeys & Hcols & Hold).
  assert (t' = t) as -> by (unfold is_table in *; congruence).
  assert ((length h0 < length (heap s))%nat) as Hlt by (by eapply lookup_lt_Some).
  assert (is_table sa (length h0) t) as Hta.
  { unfold is_table, sa. simpl. by rewrite lookup_app_l. }
  split; [done|]. split; [by apply list_lookup_middle|].
  split; [by eapply with_table_lookup|]. split.
  - intros k c [Hkc| ->]%elem_of_dict_set.
    + destruct (Hcols k c Hkc) as (Hc & l & Hl & Hlen).
      split; [done|]. exists l. split; [|by right].
      unfold s1. rewrite with_table_lookup_ne by lia.
      unfold sa. simpl. rewrite lookup_app_l; [done|]. by eapply lookup_lt_Some.
    + split; [done|]. exists (Array x). split; [|by left].
      unfold s1. rewrite with_table_lookup_ne by (unfold a; lia).
      by apply list_lookup_middle.
  - intros b Hb. unfold s1. rewrite with_table_lookup_ne by lia.
    unfold sa. simpl. rewrite lookup_app_l by lia. by apply Hold.
Qed.

Lemma eval_step_inv s' :
  v ∉ keys →
  add_column fuel (length h0) v a false true sa = (Ok tt, s') →
  out_inv h0 n s' (keys ++ [v]).
Proof.
  intros Hv Hadd. pose proof Hinv as (t & Ht & Hsz & Hkeys & _).
  destruct (eval_step_flat t Ht) as (Hta & Ha & Ht1 & Hcols1 & Hold1).
  assert (t_keys : dict_keys (fields (add_col t v a)) = keys ++ [v]).
  { simpl. rewrite dict_keys_set, Hkeys. by rewrite decide_False. }
  unfold add_column in Hadd.
  destruct (add_field_Ok_inv _ _ _ _ _ _ _ _ Hadd) as (o & Ho & Hlen).
  assert (o = OLeaf (Array x)) as -> by congruence.
  rewrite (add_field_unfold fuel _ v a false true sa t _ Hta Ha Hlen) in Hadd.
  simpl in Hadd.
  set (s1 := with_table sa (length h0) (add_col t v a)) in *.
  destruct (py_len (OLeaf (Array x))) as [m| | |] eqn:Hm; try done.
  rewrite Hsz in Hadd. case_bool_decide as Hmn.
  - injection Hadd as <-. exists (add_col t v a). repeat (split; [done|]).
    split; [|done]. intros k c Hkc.
    destruct (Hcols1 k c Hkc) as (Hc & l & Hl & [[-> ->]|Hl']); eauto.
    split; [done|]. exists (Array x). split; [done|].
    apply py_len_len_of in Hm. simpl in Hm. congruence.
  - pose proof (resize_same_shape fuel (length h0) (Some n) false s1) as Hshape.
    pose proof (resize_frame fuel (length h0) (Some n) false s1) as Hframe.
    rewrite Hadd in Hshape, Hframe. simpl in Hshape, Hframe.
    apply resize_Some_spec in Hadd as (t' & Ht' & Hsz' & Hcols').
    destruct (same_shape_table _ _ _ _ Hshape Ht1) as (t'' & Ht'' & Hf & _).
    assert (t'' = t') as -> by (unfold is_table in *; congruence).
    exists t'. split; [done|]. split; [done|]. rewrite Hf.
    split; [done|]. split.
    + intros k c Hkc. destruct (Hcols1 k c Hkc) as (Hc & l & Hl & _).
      split; [done|].
      destruct (same_shape_leaf _ _ _ _ Hshape Hl) as [l' Hl'].
      exists l'. split; [done|].
      destruct (Hcols' k c) as (o & Ho' & Hn); [by rewrite Hf|].
      by simplify_eq.
    + intros b Hb. rewrite Hframe; [by apply Hold1|].
      intros [->|[k Hkb]]%(reach_flat _ _ _ _ Ht1); [lia| |].
      * destruct (Hcols1 k b Hkb). lia.
      * intros k c Hkc. destruct (Hcols1 k c Hkc) as (_ & l & Hl & _). eauto.
Qed.

Lemma eval_step_total :
  col_len (Array x) = Some n → 0 ≤ n ≤ maxsize →
  ∃ s', add_column fuel (length h0) v a false true sa = (Ok tt, s').
Proof.
  intros Hx Hn. pose proof Hinv as (t & Ht & Hsz & _).
  destruct (eval_step_flat t Ht) as (Hta & Ha & _).
  eexists. eapply add_column_same_size; [exact Hta|exact Ha| |exact Hsz].
  by apply py_len_Ok.
Qed.
End EvalStep.

Lemma Table_init_no_columns fuel sz col_dict s :
  Struct_init col_dict = [] →
  Table_init fuel sz col_dict s =
  (Ok (length (heap s)),
   mkState (heap s ++ [OTable (mkTable [] (Some (default 1024 sz)) 0)]) (log s)).
Proof.
  intros Hnil.
  assert (Table_init fuel sz col_dict s =
          (let* a := alloc (OTable (mkTable [] None 0)) in
           run set_size a (Some (default 1024 sz)) in
           run set_loc a 0 in ret a) s) as ->.
  { unfold Table_init. rewrite Hnil. destruct col_dict as [[|kv d]|]; [done| |done].
    exfalso. revert Hnil. apply (dict_update_nonempty (dict_set kv.1 kv.2 [])), dict_set_nonempty. }
  unfold bind, alloc, set_size, set_loc, bind, get_table, put_obj, ret.
  simpl. rewrite !list_lookup_middle by done. simpl.
  rewrite !list_lookup_insert_eq by (rewrite ?length_insert, length_app; simpl; lia).
  simpl. f_equal. f_equal.
  rewrite list_insert_insert_eq.
  replace (length (heap s)) with (length (heap s) + 0)%nat by lia.
  by rewrite insert_app_r.
Qed.

Section Eval.
Context `{!ColumnResize L N}.

Lemma eval_loop_inv h0 n fuel cfg df s keys s' :
  out_inv h0 n s keys → NoDup (keys ++ map fst cfg) →
  eval_loop fuel (length h0) cfg df s = (Ok tt, s') →
  out_inv h0 n s' (keys ++ map fst cfg).
Proof.
  revert df s keys. induction cfg as [|[v spec] rest IH]; intros df s keys Hinv Hnd; simpl.
  { intros [= <-]. by rewrite app_nil_r. }
  destruct (df_eval df _ _) as [x|]; [|done].
  intros (a & sa & [= <- <-] & Hrun)%bind_Ok.
  apply bind_Ok in Hrun as ([] & s1 & Hadd & Hloop).
  assert (v ∉ keys) as Hv.
  { apply NoDup_app in Hnd as (_ & Hdisj & _). intros Hin.
    apply (Hdisj v Hin). left. }
  pose proof (eval_step_inv h0 n s keys fuel v x Hinv s1 Hv Hadd) as Hinv1.
  rewrite (cons_middle v), app_assoc. eapply IH; [exact Hinv1| |exact Hloop].
  by rewrite <-app_assoc.
Qed.

Lemma eval_loop_total h0 n fuel cfg df s keys :
  0 ≤ n ≤ maxsize →
  out_inv h0 n s keys → NoDup (keys ++ map fst cfg) → evaluates n df cfg →
  ∃ s', eval_loop fuel (length h0) cfg df s = (Ok tt, s').
Proof.
  intros Hn. revert df s keys.
  induction cfg as [|[v spec] rest IH]; intros df s keys Hinv Hnd Hev; simpl.
  { by eexists. }
  destruct Hev as (x & -> & Hx & Hev).
  unfold bind at 1. unfold alloc at 1.
  destruct (eval_step_total h0 n s keys fuel v x Hinv Hx Hn) as [s1 Hadd].
  rewrite (bind_run _ _ _ tt s1) by exact Hadd.
  assert (v ∉ keys) as Hv.
  { apply NoDup_app in Hnd as (_ & Hdisj & _). intros Hin.
    apply (Hdisj v Hin). left. }
  pose proof (eval_step_inv h0 n s keys fuel v x Hinv s1 Hv Hadd) as Hinv1.
  eapply IH; [exact Hinv1| |exact Hev].
  by rewrite <-app_assoc.
Qed.

Lemma eval_unfold fuel self cfg s t n df :
  is_table s self t → size t = Some n →
  get_dataframe self None false s = (Ok df, s) →
  eval fuel self cfg s =
  bind (eval_loop fuel (length (heap s)) cfg df) (λ _, ret (length (heap s)))
    (mkState (heap s ++ [OTable (mkTable [] (Some n) 0)]) (log s)).
Proof.
  intros Ht Hsz Hdf. unfold eval. rewrite (bind_run _ _ s df s) by done.
  rewrite (bind_run (get_table self) _ s t s) by (by apply get_table_Ok).
  rewrite Hsz.
  by rewrite (bind_run _ _ s (length (heap s)) _ (Table_init_no_columns fuel (Some n) None s eq_refl)).
Qed.

(** C6, as the code has it.  On a table whose [size] is an integer [n],
    with the keys of [expr_config] distinct: when [eval] returns, it returns
    a table that did not exist before, with [n] rows and with columns named
    by the keys of [expr_config] in their order, each a new array-like
    object of length [n]; no object that existed before was written, so the
    input table has its columns, [size] and [loc].  And [eval] does return
    when the columns of the table have one-dimensional [nda] of one length,
    which makes the frame, and every expression evaluates on it to values of
    [n] rows. *)
Theorem eval_new_table `{!PandasAssign N} :
  ∀ fuel self cfg s t n,
    is_table s self t → size t = Some n →
    NoDup (map fst cfg) →
    (∀ out s', eval fuel self cfg s = (Ok out, s') →
       heap s !! out = None ∧ out ≠ self ∧ is_table s' self t ∧
       out_inv (heap s) n s' (map fst cfg) ∧ out = length (heap s)) ∧
    (∀ m, (∀ k c, (k, c) ∈ fields t →
             ∃ o x, heap s !! c = Some o ∧ nda_of o = Some x ∧ nda_len x = Some m) →
       ∃ df, get_dataframe self None false s = (Ok df, s) ∧
         (0 ≤ n ≤ maxsize → evaluates n df cfg →
          ∃ out s', eval fuel self cfg s = (Ok out, s'))).
Proof.
  intros fuel self cfg s t n Ht Hsz Hnd.
  assert (self < length (heap s))%nat as Hself by (by eapply lookup_lt_Some).
  set (s0 := mkState (heap s ++ [OTable (mkTable [] (Some n) 0)]) (log s)).
  assert (out_inv (heap s) n s0 []) as Hinv0.
  { exists (mkTable [] (Some n) 0). split; [by apply list_lookup_middle|].
    split; [done|]. split; [done|]. split; [by intros k c ?%elem_of_nil|].
    intros a Ha. simpl. by apply lookup_app_l. }
  split.
  - intros out s' Hrun.
    assert (∃ df, get_dataframe self None false s = (Ok df, s)) as [df Hdf].
    { unfold eval in Hrun. apply bind_Ok in Hrun as (df & s1 & Hdf & _).
      exists df. pose proof (get_dataframe_state self None false s) as Hst.
      rewrite Hdf in Hst. simpl in Hst. by subst s1. }
    rewrite (eval_unfold fuel self cfg s t n df Ht Hsz Hdf) in Hrun.
    apply bind_Ok in Hrun as ([] & s1 & Hloop & [= <- <-]).
    pose proof (eval_loop_inv (heap s) n fuel cfg df s0 [] s1 Hinv0 Hnd Hloop) as Hinv.
    split; [by apply lookup_ge_None_2|]. split; [lia|]. split; [|done].
    destruct Hinv as (_ & _ & _ & _ & _ & Hold). unfold is_table. by rewrite Hold.
  - intros m Hnda.
    assert (∃ df, get_dataframe self None false s = (Ok df, s)) as [df Hdf].
    { unfold get_dataframe.
      rewrite (bind_run (get_table self) _ s t s) by (by apply get_table_Ok).
      destruct (get_dataframe_loop_rows s self t (dict_keys (fields t)) m Ht)
        with (df := @nil (string * N)) as (df & Hdf & _).
      - intros name [c Hc]%dict_get_keys.
        destruct (Hnda name c (dict_get_elem _ _ _ Hc)) as (o & x & Ho & Hx & Hm).
        exists x. split; [|done]. unfold column_nda. rewrite Hc. simpl. by rewrite Ho.
      - by intros k y ?%elem_of_nil.
      - by exists df. }
    exists df. split; [done|]. intros Hn Hev.
    destruct (eval_loop_total (heap s) n fuel cfg df s0 [] Hn Hinv0 Hnd Hev)
      as [s1 Hloop].
    exists (length (heap s)), s1.
    rewrite (eval_unfold fuel self cfg s t n df Ht Hsz Hdf).
    by rewrite (bind_run _ _ s0 tt s1) by done.
Qed.
End Eval.

(** C8. [resize] without a size on a table without columns.  It returns
    and leaves [size = None]; [__len__] then returns [None], and [is_full]
    compares [loc] with [None], which is a [TypeError].  With at least one
    column a call that returns leaves an integer in [size]. *)
Theorem resize_None_no_columns :
  ∀ fuel self dw s t, is_table s self t →
    (fields t = [] →
       let t' := mkTable [] None (loc t) in
       resize (S fuel) self None dw s = (Ok tt, with_table s self t') ∧
       Table_len t' = None ∧
       is_full self (with_table s self t') = (Raise TypeError, with_table s self t')) ∧
    (fields t ≠ [] →
       ∀ s', resize fuel self None dw s = (Ok tt, s') →
       ∃ t' n, is_table s' self t' ∧ size t' = Some n).
Proof.
  intros fuel self dw s t Ht. split.
  - intros Hf. simpl.
    rewrite (bind_run (get_table self) _ s t s) by (by apply get_table_Ok).
    rewrite Hf. simpl. unfold bind at 1, ret at 1. unfold set_size.
    rewrite (bind_run (get_table self) _ s t s) by (by apply get_table_Ok).
    rewrite Hf. split; [done|]. split; [done|].
    unfold is_full.
    erewrite bind_run; [|apply get_table_Ok; split; [by eapply with_table_lookup|done]].
    done.
  - intros Hf s' Hrun.
    destruct (resize_None_cases fuel self dw s)
      as [[_ Hs]|[(t0 & Ht0 & Hf0 & _)|(t0 & k & c & rest & o & n & _ & _ & _ & _ & Heq)]].
    + rewrite Hrun in Hs. by destruct Hs.
    + unfold is_table in *. by simplify_eq.
    + rewrite Heq in Hrun.
      apply resize_Some_size in Hrun as (t' & Ht' & Hsz). eauto.
Qed.

(** C9, as the code has it.  [add_field] with an object that has no
    [__len__] raises [TypeError] and writes nothing.  With one that has, the
    object is stored under the name, however the call ends.  On a table
    whose [size] is an integer, a call that returns leaves [size] as it was
    with [use_obj_size] false and equal to [len(obj)] with it true; the call
    returns, writing nothing else, when [len(obj)] is the size, and also
    when the size is a row count and the columns and the object are
    array-like objects that can be resized to the size that is kept. *)
Theorem add_field_atomic :
  ∀ fuel self name a uos dw s t o,
    is_table s self t → heap s !! a = Some o →
    (has_len o = false →
       add_field fuel self name a uos dw s = (Raise TypeError, s)) ∧
    (has_len o = true →
       (∃ t', is_table (add_field fuel self name a uos dw s).2 self t' ∧
              fields t' = dict_set name a (fields t) ∧ loc t' = loc t) ∧
       (∀ n s', size t = Some n →
          add_field fuel self name a uos dw s = (Ok tt, s') →
          ∃ t' m, is_table s' self t' ∧ py_len o = Ok m ∧
                  size t' = Some (if uos then m else n)) ∧
       (∀ n, size t = Some n → py_len o = Ok n →
          add_field fuel self name a uos dw s =
          (Ok tt, with_table s self (add_col t name a))) ∧
       (∀ n m, ColumnResize L N →
          size t = Some n → 0 ≤ n ≤ maxsize → py_len o = Ok m → (0 < fuel)%nat →
          (∀ c, c = a ∨ (∃ k, (k, c) ∈ fields t) →
             ∃ l mc, heap s !! c = Some (OLeaf l) ∧ py_len (OLeaf l) = Ok mc ∧
                     (mc ≠ (if uos then m else n) →
                      is_Some (col_resize l (if uos then m else n)))) →
          ∃ s', add_field fuel self name a uos dw s = (Ok tt, s'))).
Proof.
  intros fuel self name a uos dw s t o Ht Ha.
  split; [by apply add_field_TypeError|]. intros Hlen.
  rewrite (add_field_unfold fuel self name a uos dw s t o Ht Ha Hlen). simpl.
  set (s1 := with_table s self (add_col t name a)).
  assert (is_table s1 self (add_col t name a)) as Ht1 by (by eapply with_table_lookup).
  split; [|split; [|split]].
  - assert (∀ ns, ∃ t', is_table (resize fuel self ns false s1).2 self t' ∧
              fields t' = dict_set name a (fields t) ∧ loc t' = loc t) as Hres.
    { intros ns.
      destruct (same_shape_table _ _ _ _ (resize_same_shape fuel self ns false s1) Ht1)
        as (t' & Ht' & Hf & Hl). eauto. }
    destruct (py_len o) as [m| | |]; try (by exists (add_col t name a)).
    case_bool_decide; [by exists (add_col t name a)|apply Hres].
  - intros n s' Hsz. destruct (py_len o) as [m| | |]; try done.
    case_bool_decide as Hm.
    + intros [= <-]. exists (add_col t name a), m. split; [done|]. split; [done|].
      simpl. destruct uos; congruence.
    + rewrite Hsz. intros Hrun.
      assert (∃ k, (if uos then Some m else Some n) = Some k ∧
                   k = (if uos then m else n)) as (k & Hk & ->)
        by (destruct uos; eauto).
      rewrite Hk in Hrun. apply resize_Some_size in Hrun as (t' & Ht' & Hsz').
      by exists t', m.
  - intros n Hsz ->. by rewrite bool_decide_true.
  - intros n m Hlaw Hsz Hn Hm Hfuel Hflat. rewrite Hm.
    case_bool_decide; [by eexists|]. rewrite Hsz.
    set (k := if uos then m else n) in *.
    assert ((if uos then Some m else Some n) = Some k) as -> by (unfold k; by destruct uos).
    assert (0 ≤ k ≤ maxsize) as Hk.
    { unfold k. destruct uos; [|done]. by apply py_len_Ok in Hm as [_ ?]. }
    destruct fuel as [|fuel']; [lia|].
    eapply resize_Some_total; [done|exact Ht1|].
    intros k' c Hkc. eapply (resizable_le _ _ 0); [lia|].
    assert (c = a ∨ ∃ k0, (k0, c) ∈ fields t) as Hc.
    { simpl in Hkc. apply elem_of_dict_set in Hkc as [?| ->]; eauto. }
    destruct (Hflat c Hc) as (l & mc & Hl & Hmc & Hres).
    eapply resizable_leaf; [|exact Hmc|exact Hres].
    unfold s1. rewrite with_table_lookup_ne; [done|].
    intros ->. unfold is_table in Ht. congruence.
Qed.

(** C10. Default construction.  [Table()] with no size and no columns
    ([col_dict] absent or empty) returns a new table with [size = 1024] and
    [loc = 0]; its [__len__] is 1024 and [is_full] answers false. *)
Theorem default_construction :
  ∀ fuel s,
    let t := mkTable [] (Some 1024) 0 in
    let self := length (heap s) in
    let s' := mkState (heap s ++ [OTable t]) (log s) in
    Table_init fuel None None s = (Ok self, s') ∧
    Table_init fuel None (Some []) s = (Ok self, s') ∧
    loc t = 0 ∧ Table_len t = Some 1024 ∧
    is_full self s' = (Ok false, s').
Proof.
  intros fuel s t self s'.
  split; [by apply Table_init_no_columns|]. split; [by apply Table_init_no_columns|].
  split; [done|]. split; [done|].
  unfold is_full.
  rewrite (bind_run (get_table self) _ s' t s'); [done|].
  apply get_table_Ok. split; [|done]. by apply list_lookup_middle.
Qed.
End Methods.

(** * The properties on the example stores *)

Lemma reach_leaf {L : Type} (s : state L) a l b :
  heap s !! a = Some (OLeaf l) → reach s a b → b = a.
Proof.
  intros Ha Hr. destruct Hr as [a|a t k c b Ht _ _]; [done|].
  unfold is_table in Ht. congruence.
Qed.

Lemma two_cols_fields k c :
  (k, c) ∈ fields two_cols_table → (k, c) = ("a"%string, 0%nat) ∨ (k, c) = ("b"%string, 1%nat).
Proof.
  intros [?|Hkc]%elem_of_cons; [by left|].
  apply list_elem_of_singleton in Hkc. by right.
Qed.

Lemma two_cols_separated : separated two_cols (fields two_cols_table).
Proof.
  simpl. split; [|split; [|done]].
  - intros k' c' [= -> ->]%list_elem_of_singleton Hr.
    by apply (reach_leaf two_cols 0%nat (array [1; 2; 3])) in Hr.
  - by intros k' c' ?%elem_of_nil.
Qed.

Lemma array_resizable (s : state lgdo) n d a xs :
  heap s !! a = Some (OLeaf (array xs)) → 0 ≤ n →
  Z.of_nat (length xs) ≤ maxsize → resizable s n d a.
Proof.
  intros Ha Hn Hxs. eapply resizable_leaf; [exact Ha| |].
  - apply py_len_Ok. split; [done|]. lia.
  - intros _. simpl. destruct (Z.leb_spec 0 n); [by eexists|lia].
Qed.

Lemma two_cols_resizable n k c :
  0 ≤ n → (k, c) ∈ fields two_cols_table → resizable two_cols n 0 c.
Proof.
  intros Hn [[= -> ->]|[= -> ->]]%two_cols_fields.
  - by eapply (array_resizable two_cols n 0 0%nat [1; 2; 3]).
  - by eapply (array_resizable two_cols n 0 1%nat [4; 5; 6; 7; 8]).
Qed.


Lemma arrays_closed : heap_closed arrays.
Proof.
  intros a t k c Ht _. unfold is_table in Ht.
  destruct a as [|[|[|[|a]]]]; vm_compute in Ht; discriminate.
Qed.

Lemma arrays_separated :
  separated arrays [("a"%string, 0%nat); ("b"%string, 1%nat)].
Proof.
  simpl. split; [|split; [|done]].
  - intros k' c' [= -> ->]%list_elem_of_singleton Hr.
    by apply (reach_leaf arrays 0%nat (array [1; 2; 3])) in Hr.
  - by intros k' c' ?%elem_of_nil.
Qed.

Lemma two_tables_inv : table_inv two_tables 4%nat.
Proof.
  exists table_x. split; [done|].
  intros k c [= -> ->]%list_elem_of_singleton. exists 3. split; [done|].
  by exists (OLeaf (array [1; 2; 3])).
Qed.

(** C1 on the example stores: the constructor over two arrays of different
    lengths, then [add_field] taking a third array with its size; and a
    [join] of two tables of three rows. *)
Lemma equal_length_columns_witness :
  let s1 := (Table_init 1 None (Some [("a"%string, 0%nat); ("b"%string, 1%nat)]) arrays).2 in
  let s2 := (add_field 1 4%nat "c" 3%nat true true s1).2 in
  let s3 := (join 1 4%nat 5%nat None true two_tables).2 in
  table_inv s1 4%nat ∧ table_inv s2 4%nat ∧ table_inv s3 4%nat.
Proof.
  intros s1 s2 s3.
  assert (table_inv s1 4%nat) as H1.
  { apply (proj1 (equal_length_columns (L:=lgdo)) 1%nat None
             (Some [("a"%string, 0%nat); ("b"%string, 1%nat)]) arrays).
    vm_compute. reflexivity. }
  split; [exact H1|]. split.
  - apply (proj1 (proj2 (proj2 (equal_length_columns (L:=lgdo))))
             1%nat 4%nat "c"%string 3%nat true true s1 s2 H1).
    vm_compute. reflexivity.
  - apply (proj1 (proj2 (proj2 (proj2 (proj2 (equal_length_columns (L:=lgdo))))))
             1%nat 4%nat 5%nat None true two_tables s3 two_tables_inv).
    vm_compute. reflexivity.
Defined.

(** C1 fails where two tables share a column, as they do after a [join]:
    after [t2.join(t1)], [t2.resize(5)] and [t1.add_field("y", c)], which
    all return, [t1] has 3 rows and its column [x] has 5. *)
Lemma shared_column_counterexample :
  (shared_column arrays).1 = Ok 4%nat ∧ ¬ table_inv (shared_column arrays).2 4%nat.
Proof.
  split; [vm_compute; reflexivity|].
  intros (t & Ht & Hcols). vm_compute in Ht. injection Ht as <-.
  destruct (Hcols "x"%string 0%nat) as (n & Hn & o & Ho & Hlen); [left|].
  vm_compute in Hn, Ho. injection Hn as <-. injection Ho as <-.
  vm_compute in Hlen. discriminate.
Qed.

(** C2 on [two_cols]. *)
Lemma loc_cursor_witness :
  push_row 4%nat two_cols =
    (Ok tt, with_table two_cols 4%nat
              (mkTable (fields two_cols_table) (Some 3) (0 + 1))) ∧
  clear 4%nat two_cols = (Ok tt, with_table two_cols 4%nat two_cols_table) ∧
  is_full 4%nat two_cols = (Ok (bool_decide (3 ≤ 0)), two_cols).
Proof.
  destruct (proj2 (loc_cursor (L:=lgdo)) two_cols 4%nat two_cols_table eq_refl)
    as (Hpush & Hclear & Hfull).
  split; [exact Hpush|]. split; [exact Hclear|]. exact (Hfull 3 eq_refl).
Defined.



(** C4 on the example stores: resizing [two_cols] to 3 rows with warnings
    on returns and logs the one warning owed to [b]; so does the constructor
    over the same two arrays. *)
Lemma resize_warnings_witness :
  (∃ s', resize 1 4%nat (Some 3) true two_cols = (Ok tt, s') ∧
         log s' = log two_cols ++ warnings_for two_cols 3 (fields two_cols_table)) ∧
  ∃ s', Table_init 1 None (Some [("a"%string, 0%nat); ("b"%string, 1%nat)]) arrays
        = (Ok 4%nat, s') ∧
        log s' = log arrays ++ warnings_for arrays 3 [("a"%string, 0%nat); ("b"%string, 1%nat)].
Proof.
  split.
  - destruct (proj1 (proj1 (proj2 (proj2 (resize_warnings (L:=lgdo))))
                      1%nat 0%nat 4%nat 3 two_cols two_cols_table eq_refl ltac:(lia)
                      (λ k c, two_cols_resizable 3 k c ltac:(lia)))
                ltac:(by vm_compute)) as (s' & Hrun & _ & Hlog).
    exists s'. split; [exact Hrun|]. exact (Hlog two_cols_separated).
  - destruct (proj1 (proj2 (proj2 (proj2 (resize_warnings (L:=lgdo))))) 1%nat 0%nat
                [("a"%string, 0%nat); ("b"%string, 1%nat)] arrays
                "a"%string 0%nat [("b"%string, 1%nat)] (OLeaf (array [1; 2; 3])) 3
                eq_refl arrays_closed ltac:(lia) eq_refl eq_refl)
      as (s' & Hrun & _ & Hlog).
    + intros k' c' [[= -> ->]|[= -> ->]%list_elem_of_singleton]%elem_of_cons.
      * by eapply (array_resizable arrays 3 0 0%nat [1; 2; 3]).
      * by eapply (array_resizable arrays 3 0 1%nat [4; 5; 6; 7; 8]).
    + exists s'. split; [exact Hrun|]. exact (Hlog arrays_separated).
Defined.

(** C4 fails where two fields are one object: the constructor over [a] of
    three rows and [b] of five, given twice, logs one warning, for the first
    field of [b]; when the turn of the second comes, [b] has three rows.
    The lengths of the fields differed from the first column's for two. *)
Lemma aliased_columns_counterexample :
  (aliased_columns arrays).1 = Ok 4%nat ∧
  log (aliased_columns arrays).2 = [WarnResize "b" 5 3] ∧
  warnings_for arrays 3 [("a"%string, 0%nat); ("b"%string, 1%nat); ("c"%string, 1%nat)]
  = [WarnResize "b" 5 3; WarnResize "c" 5 3].
Proof. by vm_compute. Qed.

(** C5 on [equal_cols], whose two columns have three rows: the call
    writes nothing and returns a frame with the two columns; and on
    [with_scalar], where it raises. *)
Lemma get_dataframe_error_witness :
  (get_dataframe 4%nat None false equal_cols).2 = equal_cols ∧
  (∃ df, (get_dataframe 4%nat None false equal_cols).1 = Ok df ∧
         (∀ name, name ∈ dict_keys df ↔ name ∈ ["a"; "c"]%string) ∧
         (∀ name, name ∈ ["a"; "c"]%string →
            dict_get name df = column_nda equal_cols equal_cols_table name)) ∧
  (get_dataframe 4%nat None false with_scalar).1 = Raise ValueError.
Proof.
  destruct (get_dataframe_error (L:=lgdo) equal_cols 4%nat equal_cols_table None false
              eq_refl) as (Hstate & _ & _ & Hok & _).
  - intros name Hin. exact Hin.
  - intros k c [[= -> ->]|[= -> ->]%list_elem_of_singleton]%elem_of_cons; by eexists.
  - split; [exact Hstate|]. split.
    + apply (Hok 3).
      intros name [->|Hin]%elem_of_cons;
        [|apply list_elem_of_singleton in Hin as ->]; by eexists.
    + destruct (get_dataframe_error (L:=lgdo) with_scalar 4%nat table_with_scalar None
                  false eq_refl) as (_ & Hraise & _).
      * intros name Hin. exact Hin.
      * intros k c [[= -> ->]|[= -> ->]%list_elem_of_singleton]%elem_of_cons; by eexists.
      * apply Hraise. exists "v"%string. split; [by right; left|].
        by exists 2%nat, (OLeaf (scalar 7)).
Defined.

(** C5 fails on columns of different lengths: after [shared_column] the
    first table has a column of five rows and one of three, both with an
    [nda], and [get_dataframe] raises [ValueError]. *)
Lemma dataframe_after_sharing_counterexample :
  (dataframe_after_sharing arrays).1 = Raise ValueError ∧
  ∃ t, is_table (shared_column arrays).2 4%nat t ∧
       dict_keys (fields t) = ["x"; "y"]%string ∧
       ∀ name, name ∈ dict_keys (fields t) →
         is_Some (column_nda (shared_column arrays).2 t name).
Proof.
  split; [by vm_compute|]. eexists. split; [by vm_compute|]. split; [done|].
  intros name [->|Hin]%elem_of_cons;
    [|apply list_elem_of_singleton in Hin as ->]; eexists; by vm_compute.
Qed.

(** C6 on [two_tables]: one expression on the first table, evaluated by the
    example engine; the call returns the new table at address 6. *)
Lemma eval_new_table_witness :
  let cfg := [("o"%string, mkSpec "x" None)] in
  (∃ out s', eval 1 4%nat cfg two_tables = (Ok out, s')) ∧
  is_table (eval 1 4%nat cfg two_tables).2 4%nat table_x ∧
  out_inv (heap two_tables) 3 (eval 1 4%nat cfg two_tables).2 ["o"%string].
Proof.
  intros cfg.
  destruct (eval_new_table (L:=lgdo) 1%nat 4%nat cfg
              two_tables table_x 3 eq_refl eq_refl) as (Hprop & Hret).
  - apply NoDup_singleton.
  - split.
    + destruct (Hret 3) as (df & Hdf & Hgo).
      * intros k c [= -> ->]%list_elem_of_singleton. by eexists _, _.
      * apply Hgo; [by vm_compute|].
        vm_compute in Hdf. injection Hdf as <-. by eexists.
    + destruct (Hprop 6%nat (eval 1 4%nat cfg two_tables).2) as (_ & _ & Hself & Hout & _);
        [vm_compute; reflexivity|].
      split; [exact Hself|exact Hout].
Defined.

(** C6 fails on a table whose [size] is [None]: the table returned has
    1024 rows. *)
Lemma eval_size_counterexample :
  (eval_after_empty_resize arrays).1 = Ok (None, Some 1024).
Proof. vm_compute. reflexivity. Qed.

(** C7 on [two_tables]: the first table takes column [y] of the second. *)
Lemma join_shares_columns_witness :
  (∃ s', join 1 4%nat 5%nat None true two_tables = (Ok tt, s') ∧
         joined s' 4%nat 5%nat table_x table_y ["y"%string] ∧
         ∀ a, a ≠ 4%nat → heap s' !! a = heap two_tables !! a) ∧
  joined (join 1 4%nat 5%nat (Some ["y"%string]) false two_tables).2
    4%nat 5%nat table_x table_y ["y"%string].
Proof.
  split.
  - apply (proj2 (join_shares_columns (L:=lgdo) 1%nat 4%nat 5%nat None true two_tables
                    table_x table_y eq_refl eq_refl eq_refl)).
    + intros k c [= -> ->]%list_elem_of_singleton. exists (OLeaf (array [7; 8; 9])), 3.
      by vm_compute.
    + intros name Hin. exact Hin.
  - apply (proj1 (join_shares_columns (L:=lgdo) 1%nat 4%nat 5%nat (Some ["y"%string])
                    false two_tables table_x table_y eq_refl eq_refl eq_refl) 3).
    + reflexivity.
    + vm_compute. reflexivity.
Defined.

(** C8 on a store with one default table, and on [two_cols]. *)
Lemma resize_None_no_columns_witness :
  let s := mkState [OTable (mkTable [] (Some 1024) 0)] [] : state lgdo in
  let t' := mkTable [] None 0 in
  (resize 1 0%nat None false s = (Ok tt, with_table s 0%nat t') ∧
   Table_len t' = None ∧
   is_full 0%nat (with_table s 0%nat t') = (Raise TypeError, with_table s 0%nat t')) ∧
  ∃ t'' n, is_table (resize 1 4%nat None false two_cols).2 4%nat t'' ∧ size t'' = Some n.
Proof.
  intros s t'. split.
  - exact (proj1 (resize_None_no_columns (L:=lgdo) 0%nat 0%nat false s
                    (mkTable [] (Some 1024) 0) eq_refl) eq_refl).
  - apply (proj2 (resize_None_no_columns (L:=lgdo) 1%nat 4%nat false two_cols
                    two_cols_table eq_refl)); [discriminate|].
    vm_compute. reflexivity.
Defined.

(** C9 on [two_cols]: the scalar is refused and nothing is written; the
    third array, which has the table's three rows, is taken; the second
    array, of five rows, is taken with its size, and also without. *)
Lemma add_field_atomic_witness :
  add_field 1 4%nat "c" 2%nat false true two_cols = (Raise TypeError, two_cols) ∧
  add_field 1 4%nat "c" 3%nat false true two_cols =
    (Ok tt, with_table two_cols 4%nat (add_col two_cols_table "c" 3%nat)) ∧
  (∃ t' m, is_table (add_field 1 4%nat "c" 1%nat true true two_cols).2 4%nat t' ∧
           py_len (OLeaf (array [4; 5; 6; 7; 8])) = Ok m ∧ size t' = Some m) ∧
  ∃ s', add_field 1 4%nat "c" 1%nat false true two_cols = (Ok tt, s').
Proof.
  split; [|split; [|split]].
  - exact (proj1 (add_field_atomic (L:=lgdo) 1%nat 4%nat "c"%string 2%nat false true
                    two_cols two_cols_table (OLeaf (scalar 7)) eq_refl eq_refl) eq_refl).
  - destruct (add_field_atomic (L:=lgdo) 1%nat 4%nat "c"%string 3%nat false true
                two_cols two_cols_table (OLeaf (array [7; 8; 9])) eq_refl eq_refl)
      as [_ Hhas].
    destruct Hhas as (_ & _ & Hsame & _); [reflexivity|].
    apply (Hsame 3); reflexivity.
  - destruct (add_field_atomic (L:=lgdo) 1%nat 4%nat "c"%string 1%nat true true
                two_cols two_cols_table (OLeaf (array [4; 5; 6; 7; 8])) eq_refl eq_refl)
      as [_ Hhas].
    destruct Hhas as (_ & Hsize & _); [reflexivity|].
    apply (Hsize 3); [reflexivity|]. vm_compute. reflexivity.
  - destruct (add_field_atomic (L:=lgdo) 1%nat 4%nat "c"%string 1%nat false true
                two_cols two_cols_table (OLeaf (array [4; 5; 6; 7; 8])) eq_refl eq_refl)
      as [_ Hhas].
    destruct Hhas as (_ & _ & _ & Hret); [reflexivity|].
    apply (Hret 3 5 _ eq_refl); [by vm_compute|reflexivity|lia|].
    intros c [->|[k Hk]].
    + exists (array [4; 5; 6; 7; 8]), 5. split; [done|]. split; [done|].
      intros _. by eexists.
    + apply two_cols_fields in Hk as [[= -> ->]|[= -> ->]].
      * exists (array [1; 2; 3]), 3. split; [done|]. split; [done|]. by intros [].
      * exists (array [4; 5; 6; 7; 8]), 5. split; [done|]. split; [done|].
        intros _. by eexists.
Defined.

(** C9 fails on a table whose [size] is [None]: with [use_obj_size] false
    the size does not stay, it becomes the length of the column. *)
Lemma add_field_size_counterexample :
  (add_field_after_empty_resize arrays).1 = Ok (None, Some 3).
Proof. vm_compute. reflexivity. Qed.

(** * Further properties of the methods *)

Section Further.
Context {L N : Type} `{Column L N} `{Pandas N}.
Implicit Types (s : state L) (o : obj L) (a c self : addr) (t : table) (n : Z).

Lemma set_fields_quiet self d : preserves (L:=L) same_log (set_fields self d).
Proof.
  intros s. unfold set_fields, bind, get_table.
  by destruct (heap s !! self) as [[l|t]|].
Qed.

Lemma add_field_quiet fuel self name a uos dw :
  preserves (L:=L) same_log (add_field fuel self name a uos dw).
Proof.
  intros s. unfold add_field.
  apply bind_rel; [apply _|by rewrite get_obj_state|]. intros o ? [_ ->]%get_obj_Ok.
  destruct (negb (has_len o)); [done|].
  apply bind_rel; [apply _| |].
  { unfold Struct_add_field. apply bind_rel; [apply _|by rewrite get_table_state|].
    intros t ? [_ ->]%get_table_Ok. apply set_fields_quiet. }
  intros [] s1 _.
  apply bind_rel; [apply _|by rewrite get_table_state|]. intros t ? [_ ->]%get_table_Ok.
  apply bind_rel; [apply _|by rewrite get_obj_state|]. intros o1 ? [_ ->]%get_obj_Ok.
  apply bind_rel; [apply _|done|]. intros m ? [= _ <-].
  destruct (negb (bool_decide (size t = Some m))); [apply resize_quiet|done].
Qed.

(** X1. [add_field] and [add_column] never log, however they end: the
    [do_warn] they accept changes nothing, as the resize they may trigger is
    called without it. *)
Theorem add_field_logs_nothing :
  ∀ fuel self name a uos dw (s : state L),
    log (add_field fuel self name a uos dw s).2 = log s ∧
    log (add_column fuel self name a uos dw s).2 = log s ∧
    add_field fuel self name a uos true s = add_field fuel self name a uos false s.
Proof.
  intros fuel self name a uos dw s.
  split; [apply add_field_quiet|]. split; [apply add_field_quiet|done].
Qed.

Lemma join_loop_quiet fuel self other names dw :
  preserves (L:=L) same_log (join_loop fuel self other names dw).
Proof.
  induction names as [|name rest IH]; intros s; simpl; [done|].
  apply bind_rel; [apply _|by rewrite get_table_state|]. intros t ? [_ ->]%get_table_Ok.
  destruct (dict_get name (fields t)) as [c|]; [|done].
  apply bind_rel; [apply _|apply add_field_quiet|]. intros; apply IH.
Qed.

(** X2. The only thing [join] ever logs is the warning about [loc]: once,
    when the two cursors differ and [do_warn] is set; the columns it resizes
    on the way are resized silently.  This holds however the call ends. *)
Theorem join_logs_loc_warning :
  ∀ fuel self other cols dw s ts to,
    is_table s self ts → is_table s other to →
    log (join fuel self other cols dw s).2 =
    log s ++ (if negb (loc to =? loc ts) && dw
              then [WarnJoinLoc (loc to) (loc ts)] else []).
Proof.
  intros fuel self other cols dw s ts to Hts Hto. unfold join.
  rewrite (bind_run (get_table other) _ s to s) by (by apply get_table_Ok).
  rewrite (bind_run (get_table self) _ s ts s) by (by apply get_table_Ok).
  set (names := match cols with Some l => l | None => dict_keys (fields to) end).
  destruct (negb (loc to =? loc ts) && dw).
  - rewrite (bind_run _ _ s tt (mkState (heap s) (log s ++ [WarnJoinLoc (loc to) (loc ts)])))
      by done.
    apply (join_loop_quiet fuel self other names dw).
  - rewrite (bind_run _ _ s tt s) by done. rewrite app_nil_r.
    apply (join_loop_quiet fuel self other names dw).
Qed.

Lemma resize_loop_at_length rec items n dw s :
  (∀ k c, (k, c) ∈ items → ∃ o, heap s !! c = Some o ∧ py_len o = Ok n) →
  resize_loop rec items (Some n) dw s = (Ok (Some n), s).
Proof.
  induction items as [|[k c] rest IH]; intros Hall; [done|].
  destruct (Hall k c) as (o & Ho & Hl); [left|].
  cbn [resize_loop].
  rewrite (bind_run (get_obj c) _ s o s) by (by apply get_obj_Ok).
  rewrite (bind_run (lift (py_len o)) _ s n s) by (unfold lift; by rewrite Hl).
  rewrite Z.eqb_refl. simpl. apply IH. intros k' c' Hin. eapply Hall. by right.
Qed.

Lemma set_size_unfold self v s t :
  is_table s self t →
  set_size self v s = (Ok tt, with_table s self (mkTable (fields t) v (loc t))).
Proof.
  intros Ht. unfold set_size.
  by rewrite (bind_run (get_table self) _ s t s) by (by apply get_table_Ok).
Qed.

Lemma resize_at_length fuel self n dw s t :
  is_table s self t →
  (∀ k c, (k, c) ∈ fields t → ∃ o, heap s !! c = Some o ∧ py_len o = Ok n) →
  resize (S fuel) self (Some n) dw s =
  (Ok tt, with_table s self (mkTable (fields t) (Some n) (loc t))).
Proof.
  intros Ht Hall. cbn [resize].
  rewrite (bind_run (get_table self) _ s t s) by (by apply get_table_Ok).
  rewrite (bind_run _ _ s (Some n) s) by (by apply resize_loop_at_length).
  by apply set_size_unfold.
Qed.

Lemma resize_at_size fuel self n dw s t :
  is_table s self t → size t = Some n →
  (∀ k c, (k, c) ∈ fields t → ∃ o, heap s !! c = Some o ∧ py_len o = Ok n) →
  resize (S fuel) self (Some n) dw s = (Ok tt, s).
Proof.
  intros Ht Hsz Hall. rewrite (resize_at_length fuel self n dw s t) by done.
  f_equal. rewrite <- Hsz.
  replace (mkTable (fields t) (size t) (loc t)) with t by (by destruct t).
  by apply with_table_id.
Qed.

(** X3. Resizing a table to the length that [len] gives for each of its
    columns writes nothing but the [size] attribute: no column is resized,
    no sub-table is entered (one level of recursion is enough whatever the
    nesting), and nothing is logged even with [do_warn].  When the size is
    already that length the store is left exactly as it was; so is it by
    [resize()] without a size, when the table has a column. *)
Theorem resize_to_current_length :
  ∀ fuel self n dw s t,
    is_table s self t →
    (∀ k c, (k, c) ∈ fields t → ∃ o, heap s !! c = Some o ∧ py_len o = Ok n) →
    resize (S fuel) self (Some n) dw s =
      (Ok tt, with_table s self (mkTable (fields t) (Some n) (loc t))) ∧
    (size t = Some n → resize (S fuel) self (Some n) dw s = (Ok tt, s)) ∧
    (size t = Some n → fields t ≠ [] → resize (S fuel) self None dw s = (Ok tt, s)).
Proof.
  intros fuel self n dw s t Ht Hall.
  split; [by apply resize_at_length|].
  split; [intros Hsz; by eapply resize_at_size|].
  intros Hsz Hne. destruct (fields t) as [|[k c] rest] eqn:Hf; [done|].
  destruct (Hall k c) as (o & Ho & Hlo); [left|].
  rewrite (resize_None_cons (S fuel) self dw s t k c rest o n Ht Hf Ho Hlo).
  eapply resize_at_size; [done..|]. by rewrite Hf.
Qed.

Lemma same_shape_length s s' : same_shape s s' → length (heap s') = length (heap s).
Proof.
  intros Hsh.
  destruct (Nat.lt_trichotomy (length (heap s')) (length (heap s))) as [Hlt|[Heq|Hlt]];
    [|done|].
  - specialize (Hsh (length (heap s'))).
    destruct (lookup_lt_is_Some_2 _ _ Hlt) as [o Ho].
    rewrite Ho, (lookup_ge_None_2 (heap s')) in Hsh by lia. done.
  - specialize (Hsh (length (heap s))).
    destruct (lookup_lt_is_Some_2 _ _ Hlt) as [o Ho].
    rewrite Ho, (lookup_ge_None_2 (heap s)) in Hsh by lia. done.
Qed.

(** X4. What [resize] never does, however it ends (also when a column
    raises half way): it creates and removes no object; it changes no
    table's dictionary and no table's [loc]; and it writes no object other
    than the table itself and what is reachable from it through columns. *)
Theorem resize_footprint :
  ∀ fuel self ns dw (s : state L),
    let s' := (resize fuel self ns dw s).2 in
    length (heap s') = length (heap s) ∧
    (∀ a t, is_table s a t →
       ∃ t', is_table s' a t' ∧ fields t' = fields t ∧ loc t' = loc t) ∧
    (∀ a l, heap s !! a = Some (OLeaf l) → ∃ l', heap s' !! a = Some (OLeaf l')) ∧
    (∀ b, ¬ reach s self b → heap s' !! b = heap s !! b).
Proof.
  intros fuel self ns dw s s'.
  pose proof (resize_same_shape fuel self ns dw s) as Hsh. fold s' in Hsh.
  split; [by apply same_shape_length|]. split; [|split].
  - intros a t Ht. by eapply same_shape_table.
  - intros a l Ha. specialize (Hsh a). rewrite Ha in Hsh. simpl in Hsh.
    destruct (heap s' !! a) as [[l'|t']|]; simplify_eq/=. by exists l'.
  - intros b Hb. by apply resize_frame.
Qed.

Lemma get_dataframe_loop_app self l1 l2 : ∀ df s,
  get_dataframe_loop self (l1 ++ l2) df s =
  bind (get_dataframe_loop self l1 df) (λ df', get_dataframe_loop self l2 df') s.
Proof.
  induction l1 as [|col l1 IH]; intros df s; simpl; [done|].
  unfold bind.
  destruct (get_table self s) as [[t| | |] s1]; [|done..].
  destruct (dict_get col (fields t)) as [c|]; [|done].
  destruct (get_obj c s1) as [[o| | |] s2]; [|done..].
  destruct (nda_of o) as [x|]; [|done].
  destruct (df_set df col x) as [df1|]; [|done].
  by rewrite IH.
Qed.

(** X5. [get_dataframe] with a requested name that is not a column of the
    table raises [KeyError] (from [self[col]]) when the names before it can
    be taken, that is when [get_dataframe] on these returns; the store is
    left as it was. *)
Theorem get_dataframe_unknown_column :
  ∀ s self t pre name post copy df s',
    is_table s self t →
    get_dataframe self (Some pre) copy s = (Ok df, s') →
    name ∉ dict_keys (fields t) →
    get_dataframe self (Some (pre ++ name :: post)) copy s = (Raise KeyError, s).
Proof.
  intros s self t pre name post copy df s' Ht Hpre Hname.
  pose proof (get_dataframe_state self (Some pre) copy s) as Hst.
  rewrite Hpre in Hst. simpl in Hst. subst s'.
  unfold get_dataframe in *.
  rewrite (bind_run (get_table self) _ s t s) in Hpre by (by apply get_table_Ok).
  rewrite (bind_run (get_table self) _ s t s) by (by apply get_table_Ok).
  rewrite get_dataframe_loop_app, (bind_run _ _ s df s Hpre). simpl.
  rewrite (bind_run (get_table self) _ s t s) by (by apply get_table_Ok).
  destruct (dict_get name (fields t)) eqn:Hget; [|done].
  exfalso. apply Hname, dict_get_keys. by rewrite Hget.
Qed.

Lemma push_rows_unfold (k : nat) : ∀ s self t,
  is_table s self t →
  push_rows self k s =
  (Ok tt, with_table s self (mkTable (fields t) (size t) (loc t + Z.of_nat k))).
Proof.
  induction k as [|k IH]; intros s self t Ht.
  - simpl. unfold ret. f_equal. rewrite Z.add_0_r.
    replace (mkTable (fields t) (size t) (loc t)) with t by (by destruct t).
    by rewrite with_table_id.
  - cbn [push_rows]. unfold push_row at 1.
    rewrite (bind_run _ _ s tt (with_table s self (mkTable (fields t) (size t) (loc t + 1)))).
    2: { rewrite (bind_run (get_table self) _ s t s) by (by apply get_table_Ok).
         by apply set_loc_unfold. }
    rewrite (IH _ self (mkTable (fields t) (size t) (loc t + 1)))
      by (by eapply with_table_lookup).
    simpl. f_equal. unfold with_table. simpl. f_equal.
    rewrite list_insert_insert_eq.
    by replace (loc t + 1 + Z.of_nat k) with (loc t + Z.of_nat (S k)) by lia.
Qed.

(** X6. The fill cycle.  [k] calls of [push_row] always return and move
    [loc] forward by [k], writing nothing else: the cursor is not stopped at
    [size].  On a table of [n] rows [is_full] then answers whether
    [n <= loc + k]; and [clear] brings the table back to [loc] 0. *)
Theorem push_rows_fill :
  ∀ (k : nat) s self t,
    is_table s self t →
    let s' := with_table s self (mkTable (fields t) (size t) (loc t + Z.of_nat k)) in
    push_rows self k s = (Ok tt, s') ∧
    (∀ n, size t = Some n →
       is_full self s' = (Ok (bool_decide (n ≤ loc t + Z.of_nat k)), s')) ∧
    clear self s' = (Ok tt, with_table s self (mkTable (fields t) (size t) 0)).
Proof.
  intros k s self t Ht s'.
  assert (is_table s' self (mkTable (fields t) (size t) (loc t + Z.of_nat k))) as Ht'
    by (by eapply with_table_lookup).
  split; [by apply push_rows_unfold|]. split.
  - intros n Hn. unfold is_full.
    rewrite (bind_run (get_table self) _ s' _ s') by (by apply get_table_Ok).
    simpl. rewrite Hn. unfold ret. do 2 f_equal.
    destruct (Z.leb_spec n (loc t + Z.of_nat k)).
    + by rewrite bool_decide_true.
    + by rewrite bool_decide_false by lia.
  - unfold clear. rewrite (set_loc_unfold _ _ _ _ Ht'). simpl.
    f_equal. unfold s', with_table. simpl. f_equal.
    by rewrite list_insert_insert_eq.
Qed.

(** X7. Joining a table to itself changes nothing: every column is stored
    again under its own name, no size differs, the cursors are equal, so
    that nothing is written and nothing is logged. *)
Theorem join_self_is_noop :
  ∀ fuel self cols dw s t n,
    is_table s self t → size t = Some n →
    (∀ l, cols = Some l → ∀ x, x ∈ l → x ∈ dict_keys (fields t)) →
    (∀ k c, (k, c) ∈ fields t → ∃ o, heap s !! c = Some o ∧ py_len o = Ok n) →
    join fuel self self cols dw s = (Ok tt, s).
Proof.
  intros fuel self cols dw s t n Ht Hsz Hcols Hlen. unfold join.
  rewrite (bind_run (get_table self) _ s t s) by (by apply get_table_Ok).
  rewrite (bind_run (get_table self) _ s t s) by (by apply get_table_Ok).
  rewrite Z.eqb_refl. simpl.
  rewrite (bind_run _ _ s tt s) by done.
  rewrite (join_loop_spec fuel self self _ dw s t t n); try done.
  - rewrite join_fields_id.
    replace (mkTable (fields t) (size t) (loc t)) with t by (by destruct t).
    by rewrite with_table_id.
  - destruct cols as [l|]; [by apply Hcols|done].
Qed.

Section Join.
Context `{!ColumnResize L N}.

Lemma add_column_step fuel self name c dw s s' ts n :
  is_table s self ts → size ts = Some n →
  add_column fuel self name c false dw s = (Ok tt, s') →
  (∃ ts', is_table s' self ts' ∧ fields ts' = dict_set name c (fields ts) ∧
          size ts' = Some n ∧ loc ts' = loc ts) ∧
  (∀ a t, a ≠ self → is_table s a t →
     ∃ t', is_table s' a t' ∧ fields t' = fields t ∧ loc t' = loc t) ∧
  (∀ a l, heap s !! a = Some (OLeaf l) → ∃ l', heap s' !! a = Some (OLeaf l')) ∧
  len_at s' c n ∧
  (∀ b, len_at s b n → len_at s' b n) ∧
  (∀ b, b ≠ self → ¬ reach (with_table s self (add_col ts name c)) self b →
     heap s' !! b = heap s !! b).
Proof.
  intros Hts Hsz Hrun. unfold add_column in Hrun.
  destruct (add_field_Ok_inv _ _ _ _ _ _ _ _ Hrun) as (o & Ho & Hlen).
  rewrite (add_field_unfold _ _ _ _ _ _ _ ts o Hts Ho Hlen) in Hrun. simpl in Hrun.
  set (s1 := with_table s self (add_col ts name c)) in *.
  assert (is_table s1 self (add_col ts name c)) as Hts1 by (by eapply with_table_lookup).
  assert (∀ a, a ≠ self → heap s1 !! a = heap s !! a) as Hne1
    by (intros a Ha; by apply with_table_lookup_ne).
  assert (∀ b, len_at s b n → len_at s1 b n) as Hlen1
    by (intros b Hb; by eapply with_table_len_at).
  assert (∀ a l, heap s !! a = Some (OLeaf l) → heap s1 !! a = Some (OLeaf l)) as Hleaf1.
  { intros a l Ha. rewrite Hne1; [done|]. intros ->. unfold is_table in Hts. congruence. }
  destruct (py_len o) as [m| | |] eqn:Hm; try done.
  case_bool_decide as Hsame.
  - injection Hrun as <-. assert (m = n) as -> by congruence.
    split; [by exists (add_col ts name c)|].
    split; [intros a t Ha Ht; exists t; unfold is_table; by rewrite Hne1|].
    split; [intros a l Ha; exists l; by apply Hleaf1|].
    split; [apply Hlen1; exists o; split; [done|by apply py_len_len_of]|].
    split; [done|]. intros b Hb _. by apply Hne1.
  - rewrite Hsz in Hrun.
    pose proof (proj1 (resize_Some_spec fuel n) self false s1) as Hr.
    rewrite Hrun in Hr. simpl in Hr.
    destruct (proj2 (resize_Some_spec fuel n) self false s1 s' Hrun)
      as (ts' & Hts' & Hsz' & Hcols').
    destruct (same_shape_table _ _ _ _ (proj1 Hr) Hts1) as (ts'' & Hts'' & Hfs & Hls).
    assert (ts'' = ts') as -> by (unfold is_table in *; congruence).
    simpl in Hfs, Hls.
    split; [by exists ts'|].
    split.
    { intros a t Ha Ht. eapply same_shape_table; [apply Hr|].
      unfold is_table. by rewrite Hne1. }
    split.
    { intros a l Ha. pose proof (proj1 Hr a) as Hsk.
      rewrite (Hleaf1 a l Ha) in Hsk. simpl in Hsk.
      destruct (heap s' !! a) as [[l'|t']|]; simplify_eq/=. by exists l'. }
    split.
    { apply (Hcols' name c). rewrite Hfs. apply dict_get_elem.
      by rewrite dict_get_set, String.eqb_refl. }
    split; [intros b Hb; eapply resized_len_at; [done|by apply Hlen1]|].
    intros b Hb Hreach.
    pose proof (resize_frame fuel self (Some n) false s1 b Hreach) as Hfr.
    rewrite Hrun in Hfr. simpl in Hfr. by rewrite Hfr, Hne1.
Qed.

Lemma join_loop_lengths fuel self other names dw : ∀ s s' ts to n,
  is_table s self ts → is_table s other to → size ts = Some n →
  join_loop fuel self other names dw s = (Ok tt, s') →
  (∃ ts', is_table s' self ts' ∧ size ts' = Some n ∧ loc ts' = loc ts) ∧
  (∃ to', is_table s' other to' ∧ fields to' = fields to ∧ loc to' = loc to) ∧
  (∀ name, name ∈ names → ∃ c, dict_get name (fields to) = Some c ∧ len_at s' c n) ∧
  (∀ b, len_at s b n → len_at s' b n).
Proof.
  induction names as [|name rest IH]; intros s s' ts to n Hts Hto Hsz; simpl.
  { intros [= <-]. split; [by exists ts|]. split; [by exists to|].
    split; [by intros ? ?%elem_of_nil|done]. }
  intros (t & ? & [Ht ->]%get_table_Ok & Hrun)%bind_Ok.
  assert (t = to) as -> by (unfold is_table in *; congruence).
  destruct (dict_get name (fields to)) as [c|] eqn:Hc; [|done].
  apply bind_Ok in Hrun as ([] & s1 & Hadd & Hloop).
  destruct (add_column_step _ _ _ _ _ _ _ _ _ Hts Hsz Hadd)
    as ((ts1 & Hts1 & Hfs1 & Hsz1 & Hl1) & Hoth & _ & Hc1 & Hkeep & _).
  assert (∃ to1, is_table s1 other to1 ∧ fields to1 = fields to ∧ loc to1 = loc to)
    as (to1 & Hto1 & Hfo1 & Hlo1).
  { destruct (decide (other = self)) as [->|Hne]; [|by apply Hoth].
    assert (to = ts) as -> by (unfold is_table in *; congruence).
    exists ts1. split; [done|]. split; [|done].
    by rewrite Hfs1, dict_set_get_id. }
  destruct (IH _ _ _ _ _ Hts1 Hto1 Hsz1 Hloop)
    as ((ts' & Hts' & Hsz' & Hl') & (to' & Hto' & Hfo' & Hlo') & Hnames & Hkeep').
  split; [exists ts'; repeat split; congruence|].
  split; [exists to'; repeat split; congruence|].
  split; [|by intros b Hb; apply Hkeep', Hkeep].
  intros x [->|Hx]%elem_of_cons.
  - exists c. split; [done|by apply Hkeep'].
  - rewrite <- Hfo1. by apply Hnames.
Qed.

Lemma join_Ok_loop fuel self other cols dw s s' ts to :
  is_table s self ts → is_table s other to →
  join fuel self other cols dw s = (Ok tt, s') →
  ∃ s0, heap s0 = heap s ∧
        join_loop fuel self other
          (match cols with None => dict_keys (fields to) | Some l => l end) dw s0
        = (Ok tt, s').
Proof.
  intros Hts Hto Hrun. unfold join in Hrun.
  rewrite (bind_run (get_table other) _ s to s) in Hrun by (by apply get_table_Ok).
  rewrite (bind_run (get_table self) _ s ts s) in Hrun by (by apply get_table_Ok).
  apply bind_Ok in Hrun as ([] & s0 & Hwarn & Hloop).
  exists s0. split; [|done].
  destruct (negb (loc to =? loc ts) && dw); by injection Hwarn as <-.
Qed.

(** X8. [join] brings the columns it takes to the size of [self], whatever
    the size of [other_table]: when the call returns on a table of [n]
    rows, every joined name denotes in [other_table] an object that now has
    length [n]; [self] still has [n] rows, and [other_table] its dictionary
    and [loc]. *)
Theorem join_resizes_joined_columns :
  ∀ fuel self other cols dw s s' ts to n,
    is_table s self ts → is_table s other to → size ts = Some n →
    join fuel self other cols dw s = (Ok tt, s') →
    let names := match cols with None => dict_keys (fields to) | Some l => l end in
    (∃ ts', is_table s' self ts' ∧ size ts' = Some n ∧ loc ts' = loc ts) ∧
    (∃ to', is_table s' other to' ∧ fields to' = fields to ∧ loc to' = loc to) ∧
    (∀ name, name ∈ names → ∃ c, dict_get name (fields to) = Some c ∧ len_at s' c n).
Proof.
  intros fuel self other cols dw s s' ts to n Hts Hto Hsz Hrun names.
  destruct (join_Ok_loop _ _ _ _ _ _ _ _ _ Hts Hto Hrun) as (s0 & Hheap & Hloop).
  assert (is_table s0 self ts) as Hts0 by (unfold is_table in *; by rewrite Hheap).
  assert (is_table s0 other to) as Hto0 by (unfold is_table in *; by rewrite Hheap).
  destruct (join_loop_lengths _ _ _ _ _ _ _ _ _ _ Hts0 Hto0 Hsz Hloop)
    as (Hs & Ho & Hnames & _).
  done.
Qed.

Lemma join_loop_flat_frame fuel self other names dw : ∀ s s' ts to n,
  other ≠ self →
  is_table s self ts → is_table s other to → size ts = Some n →
  (∀ k c, (k, c) ∈ fields ts → ∃ l, heap s !! c = Some (OLeaf l)) →
  (∀ k c, (k, c) ∈ fields to → ∃ l, heap s !! c = Some (OLeaf l)) →
  join_loop fuel self other names dw s = (Ok tt, s') →
  is_table s' other to.
Proof.
  induction names as [|name rest IH]; intros s s' ts to n Hne Hts Hto Hsz Hfs Hfo; simpl.
  { by intros [= <-]. }
  intros (t & ? & [Ht ->]%get_table_Ok & Hrun)%bind_Ok.
  assert (t = to) as -> by (unfold is_table in *; congruence).
  destruct (dict_get name (fields to)) as [c|] eqn:Hc; [|done].
  apply bind_Ok in Hrun as ([] & s1 & Hadd & Hloop).
  destruct (add_column_step _ _ _ _ _ _ _ _ _ Hts Hsz Hadd)
    as ((ts1 & Hts1 & Hfs1 & Hsz1 & Hl1) & _ & Hleaf & _ & _ & Hframe).
  assert (is_table s1 other to) as Hto1.
  { unfold is_table. rewrite Hframe; [done..|].
    intros Hreach.
    eapply (reach_flat _ self (add_col ts name c)) in Hreach; [| |].
    - destruct Hreach as [?|[k Hk]]; [done|].
      simpl in Hk. apply elem_of_dict_set in Hk as [Hk| ->].
      + destruct (Hfs _ _ Hk) as [l Hl]. unfold is_table in Hto. congruence.
      + destruct (Hfo _ _ (dict_get_elem _ _ _ Hc)) as [l Hl].
        unfold is_table in Hto. congruence.
    - by eapply with_table_lookup.
    - intros k c' Hk. simpl in Hk.
      assert (∃ l, heap s !! c' = Some (OLeaf l)) as [l Hl].
      { apply elem_of_dict_set in Hk as [Hk| ->]; [by eapply Hfs|].
        eapply Hfo. by apply dict_get_elem. }
      exists l. rewrite with_table_lookup_ne; [done|].
      intros ->. unfold is_table in Hts. congruence. }
  eapply (IH s1 s' ts1 to n); try done.
  - intros k c' Hk. rewrite Hfs1 in Hk.
    apply elem_of_dict_set in Hk as [Hk| ->].
    + destruct (Hfs _ _ Hk) as [l Hl]. by eapply Hleaf.
    + destruct (Hfo _ _ (dict_get_elem _ _ _ Hc)) as [l Hl]. by eapply Hleaf.
  - intros k c' Hk. destruct (Hfo _ _ Hk) as [l Hl]. by eapply Hleaf.
Qed.

(** X9. [join] does not keep [other_table] consistent.  Take two different
    tables whose columns are not tables, [self] of [n] rows and
    [other_table] of [m] rows with [m ≠ n], and join at least one column:
    when the call returns, [other_table] is the object it was (it still says
    [m] rows) while its joined columns have [n] rows, so its columns are no
    longer as long as its [size]. *)
Theorem join_unequal_sizes_breaks_other :
  ∀ fuel self other cols dw s s' ts to n m name,
    other ≠ self →
    is_table s self ts → is_table s other to →
    size ts = Some n → size to = Some m → m ≠ n →
    (∀ k c, (k, c) ∈ fields ts → ∃ l, heap s !! c = Some (OLeaf l)) →
    (∀ k c, (k, c) ∈ fields to → ∃ l, heap s !! c = Some (OLeaf l)) →
    name ∈ match cols with None => dict_keys (fields to) | Some l => l end →
    join fuel self other cols dw s = (Ok tt, s') →
    is_table s' other to ∧ ¬ table_inv s' other.
Proof.
  intros fuel self other cols dw s s' ts to n m name Hne Hts Hto Hsz Hszo Hmn
    Hfs Hfo Hname Hrun.
  destruct (join_Ok_loop _ _ _ _ _ _ _ _ _ Hts Hto Hrun) as (s0 & Hheap & Hloop).
  assert (is_table s0 self ts) as Hts0 by (unfold is_table in *; by rewrite Hheap).
  assert (is_table s0 other to) as Hto0 by (unfold is_table in *; by rewrite Hheap).
  destruct (join_loop_lengths _ _ _ _ _ _ _ _ _ _ Hts0 Hto0 Hsz Hloop)
    as (_ & _ & Hlen & _).
  assert (is_table s' other to) as Hto'.
  { eapply (join_loop_flat_frame _ _ _ _ _ s0 s' ts to n); try done.
    - intros k c Hk. rewrite Hheap. by eapply Hfs.
    - intros k c Hk. rewrite Hheap. by eapply Hfo. }
  split; [done|].
  intros (t & Ht & Hinv).
  assert (t = to) as -> by (unfold is_table in *; congruence).
  destruct (Hlen name Hname) as (c & Hc & o & Ho & Hlo).
  destruct (Hinv name c (dict_get_elem _ _ _ Hc)) as (n' & Hn' & o' & Ho' & Hlo').
  congruence.
Qed.

(** X10. [resize] to a row count that [len] can return is idempotent:
    after a call that returned, a second call with the same size, with or
    without [do_warn], returns having written and logged nothing. *)
Theorem resize_idempotent :
  ∀ fuel fuel' self n dw dw' s s',
    0 ≤ n ≤ maxsize →
    resize fuel self (Some n) dw s = (Ok tt, s') →
    resize (S fuel') self (Some n) dw' s' = (Ok tt, s').
Proof.
  intros fuel fuel' self n dw dw' s s' Hn Hrun.
  destruct (proj2 (resize_Some_spec fuel n) self dw s s' Hrun) as (t' & Ht' & Hsz' & Hcols).
  eapply resize_at_size; [done..|].
  intros k c Hkc. destruct (Hcols k c Hkc) as (o & Ho & Hlen).
  exists o. split; [done|]. by apply py_len_Ok.
Qed.
End Join.

Lemma bind_Raise {A B} (m : M L A) (f : A → M L B) s e s' :
  m s = (Raise e, s') → bind m f s = (Raise e, s').
Proof. unfold bind. by intros ->. Qed.



Lemma get_dataframe_loop_keys `{!PandasAssign N} s self cols : ∀ df df' s',
  NoDup (dict_keys df ++ cols) →
  get_dataframe_loop self cols df s = (Ok df', s') →
  dict_keys df' = dict_keys df ++ cols.
Proof.
  induction cols as [|col rest IH]; intros df df' s' Hnd; simpl.
  { intros [= <- _]. by rewrite app_nil_r. }
  intros (t & ? & [Ht ->]%get_table_Ok & Hrun)%bind_Ok.
  destruct (dict_get col (fields t)) as [c|]; [|done].
  apply bind_Ok in Hrun as (o & ? & [Ho ->]%get_obj_Ok & Hrun).
  destruct (nda_of o) as [x|]; [|done].
  destruct (df_set df col x) as [df1|] eqn:Hset; [|done].
  assert (dict_keys df1 = dict_keys df ++ [col]) as Hkeys.
  { rewrite (df_set_keys _ _ _ _ Hset), dict_keys_set. case_decide as Hin; [|done].
    apply NoDup_app in Hnd as (_ & Hdisj & _). destruct (Hdisj col Hin). left. }
  rewrite (IH df1 df' s'); [|by rewrite Hkeys, <- app_assoc|done].
  by rewrite Hkeys, <- app_assoc.
Qed.

(** X12. The frame [get_dataframe] returns has its columns in the order
    they were asked for: the order of [cols], or without it the order of the
    table's columns. *)
Theorem get_dataframe_column_order `{!PandasAssign N} :
  ∀ s self cols copy t df s',
    is_table s self t →
    let names := match cols with None => dict_keys (fields t) | Some l => l end in
    NoDup names →
    get_dataframe self cols copy s = (Ok df, s') →
    dict_keys df = names.
Proof.
  intros s self cols copy t df s' Ht names Hnd Hrun. unfold get_dataframe in Hrun.
  rewrite (bind_run (get_table self) _ s t s) in Hrun by (by apply get_table_Ok).
  fold names in Hrun.
  by apply (get_dataframe_loop_keys s self names [] df s').
Qed.

(** X13. The constructor creates one object, the table, at a new address,
    and nothing else: its columns are the very objects of [col_dict] (no
    copy is made), and every table that existed keeps its dictionary and
    [loc]. *)
Theorem Table_init_allocates_table_only :
  ∀ fuel sz col_dict (s : state L) self s',
    Table_init fuel sz col_dict s = (Ok self, s') →
    self = length (heap s) ∧
    length (heap s') = S (length (heap s)) ∧
    (∃ t, is_table s' self t ∧ fields t = Struct_init col_dict ∧ loc t = 0) ∧
    (∀ a t, is_table s a t →
       ∃ t', is_table s' a t' ∧ fields t' = fields t ∧ loc t' = loc t).
Proof.
  intros fuel sz col_dict s self s' Hrun. unfold Table_init in Hrun.
  apply bind_Ok in Hrun as (a0 & s0 & Halloc & Hrun).
  injection Halloc as <- <-.
  set (self0 := length (heap s)) in *.
  set (t0 := mkTable (Struct_init col_dict) None 0) in *.
  set (s0 := mkState (heap s ++ [OTable t0]) (log s)) in *.
  assert (is_table s0 self0 t0) as Ht0 by (by apply list_lookup_middle).
  apply bind_Ok in Hrun as ([] & s1 & Hmid & Hrun).
  assert (same_shape s0 s1) as Hsh.
  { destruct col_dict as [[|kc d]|].
    - pose proof (set_size_same_shape self0 (Some (default 1024 sz)) s0) as Hp.
      by rewrite Hmid in Hp.
    - pose proof (resize_same_shape fuel self0 sz
                    (if sz is Some _ then false else true) s0) as Hp.
      by rewrite Hmid in Hp.
    - pose proof (set_size_same_shape self0 (Some (default 1024 sz)) s0) as Hp.
      by rewrite Hmid in Hp. }
  destruct (same_shape_table _ _ _ _ Hsh Ht0) as (t1 & Ht1 & Hf1 & Hl1).
  apply bind_Ok in Hrun as ([] & s2 & Hloc & Hret).
  rewrite (set_loc_unfold _ _ _ _ Ht1) in Hloc.
  injection Hret as <- <-. injection Hloc as <-.
  split; [done|]. split.
  { unfold with_table. simpl. rewrite length_insert, (same_shape_length _ _ Hsh).
    unfold s0. simpl. rewrite length_app. simpl. lia. }
  split.
  { eexists. split; [by eapply with_table_lookup|]. by simpl. }
  intros a t Ha.
  assert (a ≠ self0) as Hne.
  { intros ->. apply lookup_lt_Some in Ha. unfold self0 in Ha. lia. }
  assert (is_table s0 a t) as Ha0.
  { unfold is_table, s0. simpl. rewrite lookup_app_l; [done|]. by eapply lookup_lt_Some. }
  destruct (same_shape_table _ _ _ _ Hsh Ha0) as (t' & Ht' & Hf' & Hl').
  exists t'. split; [|done]. unfold is_table. by rewrite with_table_lookup_ne.
Qed.

(** X14. [eval] on a table with a column that has no [nda] (a scalar, or
    a sub-table) raises [ValueError], as [get_dataframe] without [cols] does,
    before anything is created: the store is left as it was. *)
Theorem eval_needs_nda :
  ∀ fuel self cfg s t name,
    is_table s self t →
    (∀ k c, (k, c) ∈ fields t → is_Some (heap s !! c)) →
    lacks_nda s t name →
    get_dataframe self None false s = (Raise ValueError, s) ∧
    eval fuel self cfg s = (Raise ValueError, s).
Proof.
  intros fuel self cfg s t name Ht Hheap (c & o & Hc & Ho & Hnda).
  assert (get_dataframe self None false s = (Raise ValueError, s)) as Hdf.
  { pose proof (get_dataframe_state self None false s) as Hst.
    destruct (get_dataframe self None false s) as [r s2] eqn:Hdf.
    simpl in Hst. subst s2. f_equal.
    unfold get_dataframe in Hdf.
    rewrite (bind_run (get_table self) _ s t s) in Hdf by (by apply get_table_Ok).
    pose proof (get_dataframe_loop_lacks s self t (dict_keys (fields t)) Ht
                  (λ _ Hin, Hin) Hheap) as Hraise.
    rewrite <- (Hraise ltac:(exists name; split;
                  [apply dict_get_keys; by rewrite Hc|by exists c, o]) []).
    by rewrite Hdf. }
  split; [done|]. unfold eval. by apply bind_Raise.
Qed.

Lemma resize_loop_keeps_cycle rec items n dw self t m :
  size t = Some m → m ≠ n →
  (∀ a s s', is_table s self t → rec a (Some n) false s = (Ok tt, s') →
     a ≠ self ∧ is_table s' self t) →
  ∀ s r s', is_table s self t →
    resize_loop rec items (Some n) dw s = (Ok r, s') →
    is_table s' self t ∧ ∀ k, (k, self) ∉ items.
Proof.
  intros Hm Hmn Hrec.
  induction items as [|[k c] rest IH]; intros s r s' Ht; simpl.
  { intros [= _ <-]. split; [done|]. by intros k ?%elem_of_nil. }
  intros (o & ? & [Ho ->]%get_obj_Ok & Hrun)%bind_Ok.
  apply bind_Ok in Hrun as (p & ? & [= Hp <-] & Hrun).
  destruct (Z.eqb_spec p n) as [->|Hpn]; simpl in Hrun.
  - destruct (IH _ _ _ Ht Hrun) as [Ht' Hnotin]. split; [done|].
    intros k' [[= _ ->]|Hin]%elem_of_cons; [|by apply (Hnotin k')].
    assert (o = OTable t) as -> by (unfold is_table in Ht; congruence).
    apply py_len_len_of in Hp. simpl in Hp. unfold Table_len in Hp. congruence.
  - apply bind_Ok in Hrun as ([] & s1 & Hwarn & Hrun).
    assert (is_table s1 self t) as Ht1.
    { destruct dw; injection Hwarn as <-; done. }
    assert (heap s1 !! c = Some o) as Ho1.
    { destruct dw; injection Hwarn as <-; done. }
    apply bind_Ok in Hrun as ([] & s2 & Hstep & Hrun).
    assert (c ≠ self ∧ is_table s2 self t) as [Hc Ht2].
    { destruct o as [l|t0].
      - assert (c ≠ self) as Hc by (intros ->; unfold is_table in Ht; congruence).
        split; [done|]. destruct (col_resize l n); [|done].
        injection Hstep as <-. unfold is_table. simpl.
        by rewrite list_lookup_insert_ne.
      - by eapply Hrec. }
    destruct (IH _ _ _ Ht2 Hrun) as [Ht' Hnotin]. split; [done|].
    intros k' [[= _ ->]|Hin]%elem_of_cons; [done|by apply (Hnotin k')].
Qed.

Lemma resize_keeps_cycle n self t m k :
  (k, self) ∈ fields t → size t = Some m → m ≠ n →
  ∀ fuel a dw s s', is_table s self t →
    resize fuel a (Some n) dw s = (Ok tt, s') → a ≠ self ∧ is_table s' self t.
Proof.
  intros Hk Hm Hmn. induction fuel as [|fuel IH]; intros a dw s s' Ht; [done|].
  cbn [resize].
  intros (ta & ? & [Hta ->]%get_table_Ok & Hrun)%bind_Ok.
  apply bind_Ok in Hrun as (r & s1 & Hloop & Hset).
  destruct (resize_loop_keeps_cycle (resize fuel) (fields ta) n dw self t m Hm Hmn
              (λ a s s', IH a false s s') s r s1 Ht Hloop) as [Ht1 Hnotin].
  assert (a ≠ self) as Ha.
  { intros ->. assert (ta = t) as -> by (unfold is_table in *; congruence).
    by apply (Hnotin k). }
  split; [done|]. unfold set_size in Hset.
  apply bind_Ok in Hset as (ta1 & ? & [Hta1 ->]%get_table_Ok & [= <-]).
  unfold is_table. simpl. by rewrite list_lookup_insert_ne.
Qed.

(** X15. A table that is one of its own columns cannot be resized to
    another size: whatever depth the recursion is allowed, the call does not
    return ([resize] calls itself on the column, which is the table, and
    so on without end). *)
Theorem resize_table_in_itself :
  ∀ fuel self n dw s t m k,
    is_table s self t → (k, self) ∈ fields t → size t = Some m → m ≠ n →
    (resize fuel self (Some n) dw s).1 ≠ Ok tt.
Proof.
  intros fuel self n dw s t m k Ht Hk Hm Hmn Hok.
  destruct (resize fuel self (Some n) dw s) as [r s'] eqn:Hrun. simpl in Hok. subst r.
  by destruct (resize_keeps_cycle n self t m k Hk Hm Hmn fuel self dw s s' Ht Hrun).
Qed.

(** X16. A table built without columns is full after as many [push_row]
    as it has rows, and not before: [Table(size)] followed by [k] calls of
    [push_row] answers [is_full] with whether the size, 1024 by default, is
    at most [k]. *)
Theorem new_table_fills_at_size :
  ∀ fuel sz (k : nat) (s : state L),
    (bind (Table_init fuel sz None)
       (λ self, bind (push_rows self k) (λ _, is_full self)) s).1 =
    Ok (bool_decide (default 1024 sz ≤ Z.of_nat k)).
Proof.
  intros fuel sz k s.
  rewrite (bind_run _ _ s _ _ (Table_init_no_columns fuel sz None s eq_refl)).
  set (t := mkTable [] (Some (default 1024 sz)) 0).
  set (s0 := mkState (heap s ++ [OTable t]) (log s)).
  assert (is_table s0 (length (heap s)) t) as Ht by (by apply list_lookup_middle).
  rewrite (bind_run _ _ s0 tt _ (push_rows_unfold k s0 _ t Ht)).
  unfold is_full. erewrite bind_run; [|apply get_table_Ok; split; [|done]; by eapply with_table_lookup].
  simpl. do 1 f_equal.
  destruct (Z.leb_spec (default 1024 sz) (0 + Z.of_nat k)).
  - by rewrite bool_decide_true by lia.
  - by rewrite bool_decide_false by lia.
Qed.

(** X17. The methods that read leave the store as it is, however they
    end: [get_dataframe], also when it raises, and [is_full] write no object
    and log nothing. *)
Theorem readers_write_nothing :
  ∀ self cols copy (s : state L),
    (get_dataframe self cols copy s).2 = s ∧ (is_full self s).2 = s.
Proof.
  intros self cols copy s. split; [apply get_dataframe_state|].
  unfold is_full. symmetry.
  apply (bind_rel eq); [by rewrite get_table_state|].
  intros t ? [_ ->]%get_table_Ok. by destruct (size t).
Qed.

(** X19. [add_field] resizes the object it is given.  On a table of [n]
    rows and with [use_obj_size] false, when the call returns the object
    stored has length [n], whatever its length was: it is changed in place,
    for every holder of it; and what had length [n] still has. *)
Theorem add_field_resizes_object `{!ColumnResize L N} :
  ∀ fuel self name a dw s s' t n,
    is_table s self t → size t = Some n →
    add_field fuel self name a false dw s = (Ok tt, s') →
    len_at s' a n ∧
    (∃ t', is_table s' self t' ∧ size t' = Some n ∧
           dict_get name (fields t') = Some a) ∧
    (∀ b, len_at s b n → len_at s' b n).
Proof.
  intros fuel self name a dw s s' t n Ht Hsz Hrun.
  destruct (add_column_step fuel self name a dw s s' t n Ht Hsz Hrun)
    as ((t' & Ht' & Hf' & Hsz' & _) & _ & _ & Hlen & Hkeep & _).
  split; [done|]. split; [|done].
  exists t'. split; [done|]. split; [done|].
  by rewrite Hf', dict_get_set, String.eqb_refl.
Qed.
(** X20. [resize] assigns [size] last.  When the call does not return (a
    column raises), the table object is exactly as it was, its [size]
    included, whatever was done to the columns visited before; this for a
    table that is not reachable from its own columns. *)
Theorem resize_failure_keeps_table :
  ∀ fuel self ns dw s t,
    is_table s self t →
    (∀ k c, (k, c) ∈ fields t → ¬ reach s c self) →
    (resize fuel self ns dw s).1 ≠ Ok tt →
    is_table (resize fuel self ns dw s).2 self t.
Proof.
  intros fuel self ns dw s t Ht Hacyc. destruct fuel as [|fuel]; [done|].
  cbn [resize].
  rewrite (bind_run (get_table self) _ s t s) by (by apply get_table_Ok).
  pose proof (resize_loop_frame (resize fuel) (fields t) ns dw
                (λ a ns', resize_same_shape fuel a ns' false)
                (λ a ns' s b, resize_frame fuel a ns' false s b) s self Hacyc) as Hfr.
  unfold bind.
  destruct (resize_loop (resize fuel) (fields t) ns dw s) as [[n| | |] s1];
    simpl in Hfr; simpl; intros Hne; try (unfold is_table; by rewrite Hfr).
  assert (is_table s1 self t) as Ht1 by (unfold is_table; by rewrite Hfr).
  by rewrite (set_size_unfold self n s1 t Ht1) in Hne.
Qed.

(** X21. The constructor does not check its columns as [add_field] does:
    with a first column on which [len] does not answer (an object without
    [__len__], or a table whose [size] is [None]) it raises the [TypeError]
    of [len(obj)], from inside [resize]. *)
Theorem Table_init_column_without_len :
  ∀ fuel sz col_dict (s : state L) k c rest o,
    Struct_init col_dict = (k, c) :: rest →
    heap s !! c = Some o → len_of o = None →
    (Table_init (S fuel) sz col_dict s).1 = Raise TypeError.
Proof.
  intros fuel sz col_dict s k c rest o Hinit Ho Hlen. unfold Table_init.
  set (t0 := mkTable (Struct_init col_dict) None 0).
  set (s0 := mkState (heap s ++ [OTable t0]) (log s)).
  rewrite (bind_run (alloc (OTable t0)) _ s (length (heap s)) s0) by done.
  assert (∀ dw, resize (S fuel) (length (heap s)) sz dw s0 = (Raise TypeError, s0)) as Hres.
  { intros dw. cbn [resize].
    rewrite (bind_run (get_table _) _ s0 t0 s0)
      by (apply get_table_Ok; split; [by apply list_lookup_middle|done]).
    simpl. rewrite Hinit. simpl. apply bind_Raise.
    rewrite (bind_run (get_obj c) _ s0 o s0).
    2: { apply get_obj_Ok. split; [|done]. simpl.
         rewrite lookup_app_l; [done|]. by eapply lookup_lt_Some. }
    apply bind_Raise. unfold lift, py_len. by rewrite Hlen. }
  destruct col_dict as [[|kv d]|]; [done| |done].
  by rewrite (bind_Raise _ _ s0 TypeError s0 (Hres _)).
Qed.
End Further.

(** * The further properties on the example stores *)

Lemma table_x_fields k c :
  (k, c) ∈ fields table_x → (k, c) = ("x"%string, 0%nat).
Proof. by intros ?%list_elem_of_singleton. Qed.

(** X2 on [two_tables], whose cursors are 0 and 1: one warning. *)
Lemma join_logs_loc_warning_witness :
  log (join 1 4%nat 5%nat None true two_tables).2 = [WarnJoinLoc 1 0].
Proof.
  exact (join_logs_loc_warning (L:=lgdo) 1%nat 4%nat 5%nat None true two_tables
           table_x table_y eq_refl eq_refl).
Defined.

(** X3 on [two_tables]: the first table has three rows already. *)
Lemma resize_to_current_length_witness :
  resize 1 4%nat (Some 3) true two_tables = (Ok tt, two_tables) ∧
  resize 1 4%nat None true two_tables = (Ok tt, two_tables).
Proof.
  destruct (resize_to_current_length (L:=lgdo) 0%nat 4%nat 3 true two_tables table_x
              eq_refl) as (_ & Hsome & Hnone).
  - intros k c [= -> ->]%table_x_fields. by exists (OLeaf (array [1; 2; 3])).
  - split; [by apply Hsome|by apply Hnone].
Defined.

(** X5 on [two_tables]: the first table has a column [x] and none named
    [z]. *)
Lemma get_dataframe_unknown_column_witness :
  get_dataframe 4%nat (Some ["x"; "z"; "x"]%string) false two_tables
  = (Raise KeyError, two_tables).
Proof.
  apply (get_dataframe_unknown_column (L:=lgdo) two_tables 4%nat table_x
           ["x"%string] "z"%string ["x"%string] false
           [("x"%string, [1; 2; 3])] two_tables eq_refl).
  - by vm_compute.
  - intros Hin%list_elem_of_singleton. discriminate Hin.
Defined.

(** X6 on [two_tables]: three rows pushed fill the first table. *)
Lemma push_rows_fill_witness :
  let s' := with_table two_tables 4%nat (mkTable (fields table_x) (Some 3) 3) in
  push_rows 4%nat 3 two_tables = (Ok tt, s') ∧
  is_full 4%nat s' = (Ok true, s') ∧
  clear 4%nat s' = (Ok tt, two_tables).
Proof.
  destruct (push_rows_fill (L:=lgdo) 3 two_tables 4%nat table_x eq_refl)
    as (Hpush & Hfull & Hclear).
  split; [exact Hpush|]. split; [exact (Hfull 3 eq_refl)|exact Hclear].
Defined.

(** X7 on [two_tables]. *)
Lemma join_self_is_noop_witness :
  join 1 4%nat 4%nat None true two_tables = (Ok tt, two_tables).
Proof.
  apply (join_self_is_noop (L:=lgdo) 1%nat 4%nat None true two_tables table_x 3
           eq_refl eq_refl).
  - discriminate.
  - intros k c [= -> ->]%table_x_fields. by exists (OLeaf (array [1; 2; 3])).
Defined.

(** X8 on [unequal_tables]: the column of five rows is cut to three. *)
Lemma join_resizes_joined_columns_witness :
  ∃ c, dict_get "y"%string (fields table_y5) = Some c ∧
       len_at (join 1 4%nat 5%nat None false unequal_tables).2 c 3.
Proof.
  destruct (join_resizes_joined_columns (L:=lgdo) 1%nat 4%nat 5%nat None false
              unequal_tables (join 1 4%nat 5%nat None false unequal_tables).2
              table_x table_y5 3 eq_refl eq_refl eq_refl) as (_ & _ & Hnames).
  - vm_compute. reflexivity.
  - apply (Hnames "y"%string). by apply list_elem_of_singleton.
Defined.

(** X9 on [unequal_tables]: the second table says five rows and holds a
    column of three. *)
Lemma join_unequal_sizes_breaks_other_witness :
  let s' := (join 1 4%nat 5%nat None false unequal_tables).2 in
  is_table s' 5%nat table_y5 ∧ ¬ table_inv s' 5%nat.
Proof.
  apply (join_unequal_sizes_breaks_other (L:=lgdo) 1%nat 4%nat 5%nat None false
           unequal_tables _ table_x table_y5 3 5 "y"%string).
  - discriminate.
  - reflexivity.
  - reflexivity.
  - reflexivity.
  - reflexivity.
  - discriminate.
  - intros k c [= -> ->]%table_x_fields. by eexists.
  - intros k c [= -> ->]%list_elem_of_singleton. by eexists.
  - by apply list_elem_of_singleton.
  - vm_compute. reflexivity.
Defined.

(** X10 on [two_cols], resized to three rows and then again. *)
Lemma resize_idempotent_witness :
  let s' := (resize 1 4%nat (Some 3) false two_cols).2 in
  resize 1 4%nat (Some 3) true s' = (Ok tt, s').
Proof.
  apply (resize_idempotent (L:=lgdo) 1%nat 0%nat 4%nat 3 false true two_cols).
  - by vm_compute.
  - vm_compute. reflexivity.
Defined.


(** X12 on [equal_cols], asked for [c] before [a]. *)
Lemma get_dataframe_column_order_witness :
  ∃ df, get_dataframe 4%nat (Some ["c"; "a"]%string) false equal_cols = (Ok df, equal_cols) ∧
        dict_keys df = ["c"; "a"]%string.
Proof.
  eexists. split; [vm_compute; reflexivity|].
  apply (get_dataframe_column_order (L:=lgdo) equal_cols 4%nat (Some ["c"; "a"]%string)
           false equal_cols_table _ equal_cols eq_refl).
  - apply NoDup_cons. split; [|apply NoDup_singleton].
    intros Hin%list_elem_of_singleton. discriminate Hin.
  - vm_compute. reflexivity.
Defined.

(** X13 on [arrays]: a table on the first array. *)
Lemma Table_init_allocates_table_only_witness :
  let s' := (Table_init 1 None (Some [("x"%string, 0%nat)]) arrays).2 in
  length (heap s') = 5%nat ∧
  ∃ t, is_table s' 4%nat t ∧ fields t = [("x"%string, 0%nat)] ∧ loc t = 0.
Proof.
  destruct (Table_init_allocates_table_only (L:=lgdo) 1%nat None
              (Some [("x"%string, 0%nat)]) arrays 4%nat
              (Table_init 1 None (Some [("x"%string, 0%nat)]) arrays).2)
    as (_ & Hlen & Ht & _).
  - vm_compute. reflexivity.
  - split; [exact Hlen|exact Ht].
Defined.

(** X14 on [with_scalar]: the column [v] is a scalar. *)
Lemma eval_needs_nda_witness :
  get_dataframe 4%nat None false with_scalar = (Raise ValueError, with_scalar) ∧
  eval 1 4%nat [("o"%string, mkSpec "a + 1" None)] with_scalar
  = (Raise ValueError, with_scalar).
Proof.
  apply (eval_needs_nda (L:=lgdo) 1%nat 4%nat [("o"%string, mkSpec "a + 1" None)]
           with_scalar table_with_scalar "v"%string eq_refl).
  - intros k c [[= -> ->]|[= -> ->]%list_elem_of_singleton]%elem_of_cons; by eexists.
  - by exists 2%nat, (OLeaf (scalar 7)).
Defined.

(** X15 on [self_column]. *)
Lemma resize_table_in_itself_witness :
  (resize 100 0%nat (Some 5) false self_column).1 ≠ Ok tt.
Proof.
  apply (resize_table_in_itself (L:=lgdo) 100%nat 0%nat 5 false self_column
           table_in_itself 3 "me"%string eq_refl).
  - by apply list_elem_of_singleton.
  - reflexivity.
  - discriminate.
Defined.

(** X19 on [two_tables]: the array of five rows is given to the first
    table, which has three. *)
Lemma add_field_resizes_object_witness :
  len_at (add_field 1 4%nat "b" 1%nat false true two_tables).2 1%nat 3.
Proof.
  destruct (add_field_resizes_object (L:=lgdo) 1%nat 4%nat "b"%string 1%nat true
              two_tables (add_field 1 4%nat "b" 1%nat false true two_tables).2
              table_x 3 eq_refl eq_refl) as (Hlen & _).
  - vm_compute. reflexivity.
  - exact Hlen.
Defined.

(** X20 on [with_scalar], resized to five rows: the first column is
    resized, the scalar raises, and the table still says three rows. *)
Lemma resize_failure_keeps_table_witness :
  let r := resize 1 4%nat (Some 5) false with_scalar in
  r.1 = Raise TypeError ∧ is_table r.2 4%nat table_with_scalar ∧ len_at r.2 0%nat 5.
Proof.
  split; [by vm_compute|]. split; [|by eexists].
  apply (resize_failure_keeps_table (L:=lgdo) 1%nat 4%nat (Some 5) false with_scalar
           table_with_scalar eq_refl).
  - intros k c [[= -> ->]|[= -> ->]%list_elem_of_singleton]%elem_of_cons Hr.
    + by apply (reach_leaf with_scalar 0%nat (array [1; 2; 3])) in Hr.
    + by apply (reach_leaf with_scalar 2%nat (scalar 7)) in Hr.
  - by vm_compute.
Defined.

(** X21 on [arrays]: a table on the scalar. *)
Lemma Table_init_column_without_len_witness :
  (Table_init 1 (Some 3) (Some [("v"%string, 2%nat)]) arrays).1 = Raise TypeError.
Proof.
  exact (Table_init_column_without_len (L:=lgdo) 0%nat (Some 3)
           (Some [("v"%string, 2%nat)]) arrays "v"%string 2%nat [] (OLeaf (scalar 7))
           eq_refl eq_refl eq_refl).
Defined.
